(** * HistoQC pipeline engine ([histoqc/qc_pipeline.py])

    A shallow embedding of the pipeline execution engine: the worker run for
    every slide, the pipeline loader, the enumeration of the input files, the
    result callback that writes the rotating report files, and [main].

    Python integers are [Z]; text is [string], the bytes of a Python [str]
    in UTF-8; dictionaries are [gmap];
    directories on disk are a [gset] of paths; every effect of the program
    (files opened and written, log lines, loader and step calls) is recorded in
    order in a trace held by the state that the program threads along. *)

From Stdlib Require Import ZArith Lia Ascii String Sorted.
From stdpp Require Import base strings list gmap pretty.

Open Scope string_scope.
Open Scope Z_scope.
Open Scope list_scope.

(** ** Python string operations *)

Module Py.

Definition TAB : ascii := "009"%char.
Definition LF : ascii := "010"%char.

Definition tab : string := String TAB "".
Definition nl : string := String LF "".

(** [sep.join(l)] *)
Fixpoint join (sep : string) (l : list string) : string :=
  match l with
  | [] => ""
  | [x] => x
  | x :: rest => x +:+ sep +:+ join sep rest
  end.

(** [s.split(c)] for a separator of one character: never the empty list. *)
Fixpoint split (c : ascii) (s : string) : list string :=
  match s with
  | "" => [""]
  | String a s' =>
      if Ascii.eqb a c then "" :: split c s'
      else match split c s' with
           | [] => [String a ""]
           | w :: ws => String a w :: ws
           end
  end.

(** [str.isspace]: the characters U+0009 to U+000D, U+001C to U+0020,
    U+0085, U+00A0, U+1680, U+2000 to U+200A, U+2028, U+2029, U+202F, U+205F
    and U+3000. In UTF-8 they take one, two or three bytes: [isspace] is the
    test for those of one byte, [isspace2] and [isspace3] for the others. *)
Definition isspace (a : ascii) : bool :=
  let n := nat_of_ascii a in
  ((9 <=? n) && (n <=? 13) || (28 <=? n) && (n <=? 32))%nat.

Definition isspace2 (a b : ascii) : bool :=
  let x := nat_of_ascii a in
  let y := nat_of_ascii b in
  ((x =? 194) && ((y =? 133) || (y =? 160)))%nat.

Definition isspace3 (a b c : ascii) : bool :=
  let x := nat_of_ascii a in
  let y := nat_of_ascii b in
  let z := nat_of_ascii c in
  ((x =? 225) && (y =? 154) && (z =? 128)
   || (x =? 226) && (y =? 128) &&
      ((128 <=? z) && (z <=? 138) || (z =? 168) || (z =? 169) || (z =? 175))
   || (x =? 226) && (y =? 129) && (z =? 159)
   || (x =? 227) && (y =? 128) && (z =? 128))%nat.

Fixpoint lstrip (s : string) : string :=
  match s with
  | "" => ""
  | String a s1 =>
      if isspace a then lstrip s1
      else match s1 with
           | "" => s
           | String b s2 =>
               if isspace2 a b then lstrip s2
               else match s2 with
                    | "" => s
                    | String c s3 => if isspace3 a b c then lstrip s3 else s
                    end
           end
  end.

(** The text is made of white space only. *)
Fixpoint all_space (s : string) : bool :=
  match s with
  | "" => true
  | String a s1 =>
      if isspace a then all_space s1
      else match s1 with
           | "" => false
           | String b s2 =>
               if isspace2 a b then all_space s2
               else match s2 with
                    | "" => false
                    | String c s3 => isspace3 a b c && all_space s3
                    end
           end
  end.

(** The longest end of the text that is white space only is cut off. *)
Fixpoint rstrip (s : string) : string :=
  match s with
  | "" => ""
  | String a s' => if all_space s then "" else String a (rstrip s')
  end.

(** [s.strip()] *)
Definition strip (s : string) : string := rstrip (lstrip s).

(** [s.endswith(suffix)] *)
Definition endswith (s suffix : string) : bool :=
  let n := String.length s in
  let k := String.length suffix in
  (k <=? n)%nat && String.eqb (substring (n - k) k s) suffix.

(** Iterating over a text file: the lines with their line ends kept; the
    last line may lack one. No line is empty. *)
Fixpoint readlines (s : string) : list string :=
  match s with
  | "" => []
  | String a s' =>
      if Ascii.eqb a LF then nl :: readlines s'
      else match readlines s' with
           | [] => [String a ""]
           | l :: ls => String a l :: ls
           end
  end.

(** [s.splitlines()]: line ends are dropped, and so is the empty piece after
    a final line end. The line boundaries are LF, CR, CR LF, VT, FF, the
    separators U+001C, U+001D and U+001E, and U+0085, U+2028 and U+2029, which
    take two and three bytes in UTF-8. *)
Definition CR : ascii := "013"%char.

Definition linebreak (a : ascii) : bool :=
  let n := nat_of_ascii a in
  ((10 <=? n) && (n <=? 12) || (28 <=? n) && (n <=? 30))%nat.

Definition linebreak2 (a b : ascii) : bool :=
  ((nat_of_ascii a =? 194) && (nat_of_ascii b =? 133))%nat.

Definition linebreak3 (a b c : ascii) : bool :=
  let z := nat_of_ascii c in
  ((nat_of_ascii a =? 226) && (nat_of_ascii b =? 128) &&
   ((z =? 168) || (z =? 169)))%nat.

(** One more character for the line at the head of the lines. *)
Definition more (a : ascii) (ls : list string) : list string :=
  match ls with
  | [] => [String a ""]
  | l :: ls' => String a l :: ls'
  end.

Fixpoint splitlines (s : string) : list string :=
  match s with
  | "" => []
  | String a s1 =>
      if Ascii.eqb a CR then
        match s1 with
        | String b s2 => if Ascii.eqb b LF then "" :: splitlines s2
                         else "" :: splitlines s1
        | "" => [""]
        end
      else if linebreak a then "" :: splitlines s1
      else match s1 with
           | "" => [String a ""]
           | String b s2 =>
               if linebreak2 a b then "" :: splitlines s2
               else match s2 with
                    | "" => more a (splitlines s1)
                    | String c s3 =>
                        if linebreak3 a b c then "" :: splitlines s3
                        else more a (splitlines s1)
                    end
           end
  end.

(** [os.path.basename] on POSIX: what follows the last slash. *)
Definition basename (p : string) : string :=
  List.last (split "/"%char p) "".

(** [str(n)] for an [int] *)
Definition str_int (n : Z) : string := pretty n.

End Py.

(** ** Data model *)

(** A value held by a step's parameter dictionary: text read from the
    configuration, or one of the two proxies shared by all the workers
    ([manager.Lock()] and [manager.dict()]). *)
Inductive pval :=
  | PStr (v : string)
  | PLock
  | PSharedDict.

Abbreviation params := (gmap string pval).

(** Modelled from the spec: [BaseImage], the per-slide record (section 3,
    ItemState): the steps completed so far, the names of the output fields in
    report order, the record's entries as [str] prints them, the warnings and
    the handle that cannot cross a process boundary. *)
Record ItemState := {
  completed : list string;
  output : list string;
  fields : gmap string string;
  warnings : list string;
  os_handle : option nat }.

(** An exception of class [Exception]: class, docstring, [args], and the text
    of the code object of the frame just below [worker] in its traceback. *)
Record pyexc := {
  exc_class : string;
  exc_doc : option string;
  exc_args : list string;
  exc_code : string }.

Inductive exn :=
  | SystemExit (code : Z)
  | Exception (e : pyexc).

(** A pipeline step as [load_pipeline] resolves it: a function with its
    [__name__]. A step works on the record it is given and on its parameter
    dictionary as it stands at the call; it may raise. Of what a step may
    do, the model keeps the record it returns and an exception of class
    [Exception] it raises; a step that ends the process, or that works on
    the disk or on its dictionary, is outside it. *)
Record capability := {
  cap_name : string;
  cap_run : ItemState → params → pyexc + ItemState }.

(** The configuration file as [configparser] reads it. *)
Abbreviation config := (gmap string (gmap string string)).

(** [args.batch]: an [int], or [float("inf")] when the option is absent. *)
Inductive batch_size :=
  | Unbounded
  | Bounded (b : Z).

Record Args := {
  input_pattern : list string;
  outdir : string;
  basepath : string;
  config_path : string;
  force : bool;
  batch_arg : batch_size;
  nthreads : Z;
  symlinkoff : bool }.

Inductive level := INFO | WARNING | ERROR.

(** The mode a report file is opened in ([overwrite_flag]). *)
Inductive mode := W | A.

Inductive event :=
  | Log (l : level) (msg : string)
  | LogResult (r : option ItemState)
  | PrintHelp
  | FOpen (f : string) (m : mode)
  | FWrite (f txt : string)
  | FFlush (f : string)
  | FClose (f : string)
  | Makedirs (d : string)
  | Rmtree (d : string)
  | Load (fname dir : string) (p : params)
  | Call (name : string) (p : params)
  | Symlink (origin target : string)
  | CopyFile (src dst : string).

(** What lies outside the program: the operating system, the command-line
    parser, the modules that hold the steps, and the slide loader.
    [read_text] is the text of a file as text mode delivers it, its line
    ends translated to LF. *)
Record Env := {
  realpath : string → string;
  glob : string → list string;
  read_text : string → option string;
  parse_args : list string → option Args;
  read_config : string → config;
  now : string;
  lookup_func : string → string → pyexc + capability;
  BaseImage : string → string → params → pyexc + ItemState;
  repr : string → string;
  normpath : string → string;
  can_symlink : string → string → bool }.

(** The mutable state of a run: the directories on disk, the parameter
    dictionaries by address, the module globals ([batch], [nfiledone],
    [first], [failed], [headers]), the open report file, and the trace. *)
Record state := {
  dirs : gset string;
  heap : list params;
  batch : Z;
  nfiledone : Z;
  first : bool;
  failed : list (string * string);
  headers : list string;
  csv_report : string;
  trace : list event }.

Definition set_dirs (f : gset string → gset string) (st : state) : state :=
  {| dirs := f (dirs st); heap := heap st; batch := batch st;
     nfiledone := nfiledone st; first := first st; failed := failed st;
     headers := headers st; csv_report := csv_report st; trace := trace st |}.

Definition set_heap (f : list params → list params) (st : state) : state :=
  {| dirs := dirs st; heap := f (heap st); batch := batch st;
     nfiledone := nfiledone st; first := first st; failed := failed st;
     headers := headers st; csv_report := csv_report st; trace := trace st |}.

Definition set_batch (b : Z) (st : state) : state :=
  {| dirs := dirs st; heap := heap st; batch := b;
     nfiledone := nfiledone st; first := first st; failed := failed st;
     headers := headers st; csv_report := csv_report st; trace := trace st |}.

Definition set_nfiledone (n : Z) (st : state) : state :=
  {| dirs := dirs st; heap := heap st; batch := batch st;
     nfiledone := n; first := first st; failed := failed st;
     headers := headers st; csv_report := csv_report st; trace := trace st |}.

Definition set_first (b : bool) (st : state) : state :=
  {| dirs := dirs st; heap := heap st; batch := batch st;
     nfiledone := nfiledone st; first := b; failed := failed st;
     headers := headers st; csv_report := csv_report st; trace := trace st |}.

Definition set_failed (l : list (string * string)) (st : state) : state :=
  {| dirs := dirs st; heap := heap st; batch := batch st;
     nfiledone := nfiledone st; first := first st; failed := l;
     headers := headers st; csv_report := csv_report st; trace := trace st |}.

Definition set_headers (l : list string) (st : state) : state :=
  {| dirs := dirs st; heap := heap st; batch := batch st;
     nfiledone := nfiledone st; first := first st; failed := failed st;
     headers := l; csv_report := csv_report st; trace := trace st |}.

Definition set_csv_report (f : string) (st : state) : state :=
  {| dirs := dirs st; heap := heap st; batch := batch st;
     nfiledone := nfiledone st; first := first st; failed := failed st;
     headers := headers st; csv_report := f; trace := trace st |}.

Definition emit (e : event) (st : state) : state :=
  {| dirs := dirs st; heap := heap st; batch := batch st;
     nfiledone := nfiledone st; first := first st; failed := failed st;
     headers := headers st; csv_report := csv_report st;
     trace := trace st ++ [e] |}.

(** The module globals as the file sets them before [main] runs. *)
Definition initial (d : gset string) : state :=
  {| dirs := d; heap := []; batch := 1; nfiledone := 0; first := true;
     failed := []; headers := []; csv_report := ""; trace := [] |}.

(** ** The monad of the program: state and exceptions *)

Inductive outcome (A : Type) :=
  | Return (a : A)
  | Raise (e : exn).
Arguments Return {A} a.
Arguments Raise {A} e.

Definition M (A : Type) : Type := state → outcome A * state.

Definition ret {A} (a : A) : M A := λ st, (Return a, st).

Definition bind {A B} (m : M A) (k : A → M B) : M B :=
  λ st, match m st with
        | (Return a, st') => k a st'
        | (Raise e, st') => (Raise e, st')
        end.

Definition raise {A} (e : exn) : M A := λ st, (Raise e, st).

(** [try: m except Exception as e: h e]; [SystemExit] is not an
    [Exception] and passes through. *)
Definition try_except {A} (m : M A) (h : pyexc → M A) : M A :=
  λ st, match m st with
        | (Raise (Exception e), st') => h e st'
        | r => r
        end.

Definition gets {A} (f : state → A) : M A := λ st, (Return (f st), st).
Definition modify (f : state → state) : M unit := λ st, (Return tt, f st).

Notation "'do' x <- m ; k" := (bind m (λ x, k))
  (at level 10, x name, m at level 100, k at level 200).
Notation "m ;; k" := (bind m (λ _, k))
  (at level 100, k at level 200, right associativity).

Definition tell (e : event) : M unit := modify (emit e).
Definition logging (l : level) (msg : string) : M unit := tell (Log l msg).

(** [sys.exit(code)] *)
Definition sys_exit {A} (code : Z) : M A := raise (SystemExit code).

Definition lift {A} (r : pyexc + A) : M A :=
  match r with
  | inl e => raise (Exception e)
  | inr a => ret a
  end.

(** ** The file system and the dictionaries *)

Definition os_sep : string := "/".

(** A directory path without its final slash, as the system reads it. *)
Fixpoint no_final_slash (d : string) : string :=
  match d with
  | String a "" => if Ascii.eqb a "/" then "" else d
  | String a d' => String a (no_final_slash d')
  | "" => ""
  end.

(** [os.path.isdir] *)
Definition isdir (d : string) : M bool :=
  gets (λ st, bool_decide (no_final_slash d ∈ dirs st)).

(** The path and every directory above it, as [os.makedirs] creates them. *)
Fixpoint ancestors (pre : string) (parts : list string) : list string :=
  match parts with
  | [] => []
  | x :: rest =>
      let here := pre +:+ x in
      (if String.eqb x "" then [] else [here]) ++ ancestors (here +:+ os_sep) rest
  end.

Definition under (d p : string) : bool :=
  String.eqb p d || String.prefix (d +:+ os_sep) p.

(** [os.makedirs(path)]: [OSError] with [EEXIST] when the path is there.
    The creation itself is taken to succeed: a path that cannot be made (an
    empty path, a missing permission) is outside the model. *)
Definition makedirs (path : string) : M bool :=
  do there <- isdir path;
  if there then ret false
  else
    tell (Makedirs path) ;;
    modify (set_dirs (λ ds, {[no_final_slash path]} ∪ ds ∪
                            list_to_set (ancestors "" (Py.split "/" path)))) ;;
    ret true.

(** [make_dir_safe]: the [EEXIST] error is swallowed. *)
Definition make_dir_safe (path : string) : M unit :=
  do _ <- makedirs path; ret tt.

(** [shutil.rmtree]: the directory goes, with all that is under it. *)
Definition rmtree (d : string) : M unit :=
  tell (Rmtree d) ;;
  modify (set_dirs (filter (λ p, ¬ under (no_final_slash d) p))).

(** A new dictionary; its address is returned. *)
Definition new_dict (p : params) : M nat :=
  do a <- gets (λ st, length (heap st));
  modify (set_heap (λ h, h ++ [p])) ;;
  ret a.

(** [d[k] = v] for the dictionary at address [a] *)
Definition dict_set (a : nat) (k : string) (v : pval) : M unit :=
  modify (set_heap (λ h, alter (λ d, <[k := v]> d) a h)).

Definition dict_at (a : nat) : M params :=
  gets (λ st, default ∅ (heap st !! a)).

(** ** Errors of the library calls the engine makes *)

Definition NoSectionError (sec : string) : pyexc :=
  {| exc_class := "configparser.NoSectionError";
     exc_doc := Some "Raised when no section matches a requested option.";
     exc_args := [sec]; exc_code := "items" |}.

Definition NoOptionError (opt sec : string) : pyexc :=
  {| exc_class := "configparser.NoOptionError";
     exc_doc := Some "A requested option was not found.";
     exc_args := [opt; sec]; exc_code := "get" |}.

Definition ValueError (msg : string) : pyexc :=
  {| exc_class := "ValueError";
     exc_doc := Some "Inappropriate argument value (of correct type).";
     exc_args := [msg]; exc_code := "" |}.

Definition KeyError (key : string) : pyexc :=
  {| exc_class := "KeyError"; exc_doc := Some "Mapping key not found.";
     exc_args := [key]; exc_code := "" |}.

Definition IndexError (msg : string) : pyexc :=
  {| exc_class := "IndexError"; exc_doc := Some "Sequence index out of range.";
     exc_args := [msg]; exc_code := "" |}.

Definition TypeError (msg : string) : pyexc :=
  {| exc_class := "TypeError"; exc_doc := Some "Inappropriate argument type.";
     exc_args := [msg]; exc_code := "" |}.

Definition ZeroDivisionError : pyexc :=
  {| exc_class := "ZeroDivisionError";
     exc_doc := Some "Second argument to a division or modulo operation was zero.";
     exc_args := ["integer division or modulo by zero"]; exc_code := "" |}.

Definition FileNotFoundError (path : string) : pyexc :=
  {| exc_class := "FileNotFoundError"; exc_doc := Some "File not found.";
     exc_args := ["2"; "No such file or directory"]; exc_code := path |}.

(** [multiprocessing.TimeoutError], raised by [r.get(timeout=...)] *)
Definition TimeoutError : pyexc :=
  {| exc_class := "multiprocessing.context.TimeoutError"; exc_doc := None;
     exc_args := []; exc_code := "" |}.

(** [lconfig.items(section)] made into a dictionary *)
Definition config_items (lconfig : config) (sec : string) : pyexc + params :=
  match lconfig !! sec with
  | Some kv => inr (PStr <$> kv)
  | None => inl (NoSectionError sec)
  end.

(** [lconfig.get(section, option)] *)
Definition config_get (lconfig : config) (sec opt : string) : pyexc + string :=
  match lconfig !! sec with
  | None => inl (NoSectionError sec)
  | Some kv =>
      match kv !! opt with
      | Some v => inr v
      | None => inl (NoOptionError opt sec)
      end
  end.

(** ** The engine *)

Section Engine.

Context (env : Env).

(** *** [worker] *)

Definition append_completed (name : string) (s : ItemState) : ItemState :=
  {| completed := completed s ++ [name]; output := output s;
     fields := fields s; warnings := warnings s; os_handle := os_handle s |}.

(** [s.pop("os_handle", None)] *)
Definition pop_os_handle (s : ItemState) : ItemState :=
  {| completed := completed s; output := output s;
     fields := fields s; warnings := warnings s; os_handle := None |}.

(** [e.args += extra] *)
Definition add_args (e : pyexc) (extra : list string) : pyexc :=
  {| exc_class := exc_class e; exc_doc := exc_doc e;
     exc_args := exc_args e ++ extra; exc_code := exc_code e |}.

(** The loop over [process_queue]: each entry is a step and the address of
    its parameter dictionary. *)
Fixpoint run_steps (lock shared_dict : pval)
    (process_queue : list (capability * nat)) (s : ItemState) : M ItemState :=
  match process_queue with
  | [] => ret s
  | (process, a) :: rest =>
      dict_set a "lock" lock ;;
      dict_set a "shared_dict" shared_dict ;;
      do process_params <- dict_at a;
      tell (Call (cap_name process) process_params) ;;
      do s' <- lift (cap_run process s process_params);
      run_steps lock shared_dict rest (append_completed (cap_name process) s')
  end.

Definition skip_message (fname : string) : string :=
  fname +:+ " already seems to be processed (output directory exists), " +:+
  "skipping. To avoid this behavior use --force".

Definition working_message (i n : nat) (fname : string) : string :=
  "-----Working on:" +:+ Py.tab +:+ fname +:+ Py.tab +:+ Py.tab +:+
  Py.str_int (Z.of_nat i + 1) +:+ " of " +:+ Py.str_int (Z.of_nat n).

Definition fname_outdir (args : Args) (fname : string) : string :=
  outdir args +:+ os_sep +:+ Py.basename fname.

(** The [try] block of [worker]: load the slide, then run the steps. *)
Definition load_and_run (fname : string) (args : Args) (lconfig : config)
    (process_queue : list (capability * nat)) (lock shared_dict : pval)
    : M ItemState :=
  do p <- lift (config_items lconfig "BaseImage.BaseImage");
  tell (Load fname (fname_outdir args fname) p) ;;
  do s <- lift (BaseImage env fname (fname_outdir args fname) p);
  run_steps lock shared_dict process_queue s.

Definition worker (i n : nat) (fname : string) (args : Args) (lconfig : config)
    (process_queue : list (capability * nat)) (lock shared_dict : pval)
    : M (option ItemState) :=
  do there <- isdir (fname_outdir args fname);
  do skip <-
    (if there then
       if force args then rmtree (fname_outdir args fname) ;; ret false
       else logging WARNING (skip_message fname) ;; ret true
     else ret false);
  if skip then ret None
  else
    make_dir_safe (fname_outdir args fname) ;;
    logging INFO (working_message i n fname) ;;
    do s <- try_except
              (load_and_run fname args lconfig process_queue lock shared_dict)
              (λ e, raise (Exception (add_args e [fname; exc_code e])));
    ret (Some (pop_os_handle s)).

(** *** [worker_error] *)

(** [str(e)] as [BaseException] defines it, from [args]; a class with a
    [__str__] of its own is outside the model. *)
Definition str_exc (e : pyexc) : string :=
  match exc_args e with
  | [] => ""
  | [a] => a
  | l => "(" +:+ Py.join ", " (repr env <$> l) +:+ ")"
  end.

Definition worker_error (e : pyexc) : M unit :=
  match exc_args e !! 1%nat with
  | None => raise (Exception (IndexError "tuple index out of range"))
  | Some fname =>
      let func := "" in
      match exc_doc e with
      | None => raise (Exception (TypeError "sequence item 1: expected str instance, NoneType found"))
      | Some doc =>
          let err_string :=
            Py.join " " ["<class '" +:+ exc_class e +:+ "'>"; doc; str_exc e; func] in
          logging ERROR (fname +:+ " - " +:+ Py.tab +:+ func +:+
                         " - Error analyzing file (skipping): " +:+ Py.tab +:+
                         " " +:+ err_string) ;;
          do l <- gets failed;
          modify (set_failed (l ++ [(fname, err_string)]))
      end
  end.

(** *** [load_pipeline] *)

Definition append_header (h : string) : M unit :=
  do l <- gets headers;
  modify (set_headers (l ++ [h])).

(** The loop of [load_pipeline] over the configured steps; [queue] is the
    list built so far. *)
Fixpoint load_steps (in_main : bool) (lconfig : config) (steps : list string)
    (queue : list (capability * nat)) : M (list (capability * nat)) :=
  match steps with
  | [] => ret queue
  | process :: rest =>
      match Py.split "." process with
      | [mod_name; func_name] =>
          (if in_main
           then logging INFO (Py.tab +:+ Py.tab +:+ mod_name +:+ Py.tab +:+ func_name)
           else ret tt) ;;
          let func_name := hd "" (Py.split ":" func_name) in
          do func <- lift (lookup_func env mod_name func_name);
          do a <- new_dict (match lconfig !! process with
                            | Some kv => PStr <$> kv
                            | None => ∅
                            end);
          load_steps in_main lconfig rest (queue ++ [(func, a)])
      | [_] => raise (Exception (ValueError "not enough values to unpack (expected 2, got 1)"))
      | _ => raise (Exception (ValueError "too many values to unpack (expected 2)"))
      end
  end.

Definition load_pipeline (in_main : bool) (lconfig : config)
    : M (list (capability * nat)) :=
  (if in_main then logging INFO "Pipeline will use these steps:" else ret tt) ;;
  do steps_text <- lift (config_get lconfig "pipeline" "steps");
  let steps := Py.splitlines steps_text in
  append_header ("pipeline: " +:+ Py.join " " steps) ;;
  load_steps in_main lconfig steps [].

End Engine.

(** ** The report: the callback run for every result *)

Section Report.

Context (args : Args) (overwrite_flag : mode).

Definition results_name (b : Z) : string :=
  outdir args +:+ os_sep +:+ "results_" +:+ Py.str_int b +:+ ".tsv".

Definition results_plain : string :=
  outdir args +:+ os_sep +:+ "results.tsv".

(** [csv_report = open(filename, overwrite_flag, buffering=1)] *)
Definition fopen (f : string) (m : mode) : M unit :=
  tell (FOpen f m) ;; modify (set_csv_report f).

Definition fwrite (txt : string) : M unit :=
  do f <- gets csv_report; tell (FWrite f txt).

Definition fflush : M unit := do f <- gets csv_report; tell (FFlush f).
Definition fclose : M unit := do f <- gets csv_report; tell (FClose f).

(** [nfiledone and nfiledone % args.batch == 0]. The remainder by
    [float("inf")] of a positive count is the count itself; the remainder by
    the integer zero raises. *)
Definition rotate_due (n : Z) (b : batch_size) : M bool :=
  if n =? 0 then ret false
  else match b with
       | Unbounded => ret false
       | Bounded b =>
           if b =? 0 then raise (Exception ZeroDivisionError)
           else ret (n mod b =? 0)
       end.

(** [[str(s[field]) for field in s["output"]]] *)
Fixpoint item_values (s : ItemState) (names : list string) : M (list string) :=
  match names with
  | [] => ret []
  | field :: rest =>
      match fields s !! field with
      | None => raise (Exception (KeyError field))
      | Some v => do vs <- item_values s rest; ret (v :: vs)
      end
  end.

Definition metadata_text (hs : list string) : string :=
  Py.join Py.nl ((λ h, "#" +:+ h) <$> hs) +:+ Py.nl.

Definition dataset_text (s : ItemState) : string :=
  "#dataset:" +:+ Py.join Py.tab (output s) +:+ Py.tab +:+ "warnings" +:+ Py.nl.

Definition row_text (vals : list string) (s : ItemState) : string :=
  Py.join Py.tab vals +:+ Py.tab +:+ Py.join "|" (warnings s) +:+ Py.nl.

Definition is_w (m : mode) : bool :=
  match m with W => true | A => false end.

Definition callback (r : option ItemState) : M unit :=
  match r with
  | None => ret tt
  | Some s =>
      do n <- gets nfiledone;
      do due <- rotate_due n (batch_arg args);
      (if due then
         fclose ;;
         do b <- gets batch;
         modify (set_batch (b + 1)) ;;
         fopen (results_name (b + 1)) overwrite_flag ;;
         modify (set_first true)
       else ret tt) ;;
      do fst <- gets first;
      (if fst && is_w overwrite_flag then
         modify (set_first false) ;;
         do hs <- gets headers;
         fwrite (metadata_text hs) ;;
         fwrite (dataset_text s)
       else ret tt) ;;
      do vals <- item_values s (output s);
      fwrite (row_text vals s) ;;
      fflush ;;
      do n <- gets nfiledone;
      modify (set_nfiledone (n + 1))
  end.

(** The results delivered to the callback one after the other, in the order
    in which the tasks complete. *)
Fixpoint deliver (rs : list (option ItemState)) : M unit :=
  match rs with
  | [] => ret tt
  | r :: rest => callback r ;; deliver rest
  end.

End Report.

(** ** [main] *)

Section Main.

Context (env : Env).

(** The loop over the lines of a manifest; [files] is the list built so far.
    Reading a file never yields an empty line, so [line[0]] is defined. *)
Definition is_comment (line : string) : bool :=
  match line with
  | String a _ => Ascii.eqb a "#"
  | "" => false
  end.

Definition first_column (line : string) : string :=
  hd "" (Py.split Py.TAB (Py.strip line)).

Fixpoint manifest_loop (basepath : string) (lines : list string)
    (files : list string) : list string :=
  match lines with
  | [] => files
  | line :: rest =>
      if is_comment line then manifest_loop basepath rest files
      else manifest_loop basepath rest (files ++ [basepath +:+ first_column line])
  end.

(** The list of files: the three ways to name the input. *)
Definition enumerate (args : Args) : M (list string) :=
  let basepath' :=
    if (0 <? String.length (basepath args))%nat then basepath args +:+ os_sep else "" in
  match input_pattern args with
  | [] => logging ERROR "No imput files given" ;; sys_exit 1
  | [pattern] =>
      if Py.endswith pattern "tsv" then
        match read_text env pattern with
        | None => raise (Exception (FileNotFoundError pattern))
        | Some text => ret (manifest_loop basepath' (Py.readlines text) [])
        end
      else ret (glob env (basepath args +:+ pattern))
  | _ => ret (input_pattern args)
  end.

(** The choice of [overwrite_flag] *)
Definition choose_flag (args : Args) : M mode :=
  if (0 <? length (glob env (outdir args +:+ os_sep +:+ "results*.tsv")))%nat then
    if force args then
      logging INFO "Previous run detected....overwriting (--force set)" ;; ret W
    else
      logging INFO "Previous run detected....skipping completed (--force not set)" ;;
      ret A
  else ret W.

(** The first report file is opened. *)
Definition open_report (args : Args) (overwrite_flag : mode) : M unit :=
  do b <- gets batch;
  let filename :=
    match batch_arg args with
    | Bounded _ => results_name args b
    | Unbounded => results_plain args
    end in
  fopen filename overwrite_flag.

(** The arguments of a task are pickled for the worker process: the worker
    gets copies of the parameter dictionaries. *)
Fixpoint pickle_queue (process_queue : list (capability * nat))
    : M (list (capability * nat)) :=
  match process_queue with
  | [] => ret []
  | (f, a) :: rest =>
      do p <- dict_at a;
      do a' <- new_dict p;
      do rest' <- pickle_queue rest;
      ret ((f, a') :: rest')
  end.

(** A task is run and its result kept, be it a value or an exception. *)
Definition attempt {T} (m : M T) : M (outcome T) :=
  λ st, let (r, st') := m st in (Return r, st').

(** [for r in results: logging.info(r.get(timeout=...))] as far as the
    results are ready: a value is logged, an exception is raised in [main]. *)
Fixpoint get_ready (ready : gmap nat (outcome (option ItemState)))
    (next fuel : nat) : M nat :=
  match fuel with
  | O => ret next
  | S fuel' =>
      match ready !! next with
      | None => ret next
      | Some (Return v) => tell (LogResult v) ;; get_ready ready (S next) fuel'
      | Some (Raise e) => raise e
      end
  end.

(** The pool at work. [order] lists the tasks in the order in which they
    complete; a task absent from it never completes. For each task the
    worker runs on pickled arguments; a value goes to [callback] (no
    [error_callback] is given to [apply_async]); then [main], waiting in its
    [get] loop, takes the results that are ready in submission order. An
    exception out of the callback ends the thread that handles results, so no
    further result arrives and the [get] in [main] times out. The model ends
    the run there: what the tasks still at work do until the time-out, and
    the [KeyError] that the pool swallows before it goes on, are outside
    it. *)
Fixpoint pool_loop (args : Args) (overwrite_flag : mode) (lconfig : config)
    (process_queue : list (capability * nat)) (lock shared_dict : pval)
    (tasks : list string) (order : list nat)
    (ready : gmap nat (outcome (option ItemState))) (next : nat) : M unit :=
  match order with
  | [] =>
      if bool_decide (next < length tasks)%nat
      then raise (Exception TimeoutError) else ret tt
  | i :: order' =>
      match tasks !! i, ready !! i with
      | Some fname, None =>
          do q <- pickle_queue process_queue;
          do r <- attempt (worker env i (length tasks) fname args lconfig q
                             lock shared_dict);
          match r with
           | Return v =>
               try_except (callback args overwrite_flag v)
                          (λ _, raise (Exception TimeoutError))
           | Raise _ => ret tt
           end ;;
          let ready' := <[i := r]> ready in
          do next' <- get_ready ready' next (S (size ready'));
          pool_loop args overwrite_flag lconfig process_queue lock shared_dict
                    tasks order' ready' next'
      | _, _ =>
          pool_loop args overwrite_flag lconfig process_queue lock shared_dict
                    tasks order' ready next
      end
  end.

(** The summary of the failures at the end of the run *)
Fixpoint log_failed (l : list (string * string)) : M unit :=
  match l with
  | [] => ret tt
  | (fname, error) :: rest =>
      logging INFO (fname +:+ Py.tab +:+ error) ;; log_failed rest
  end.

(** The end of [main]. The link is taken to fail only in the two ways the
    code catches, and the copy of the log to succeed. *)
Definition finish (args : Args) : M unit :=
  fclose ;;
  logging INFO ("------------Done---------" +:+ Py.nl) ;;
  do fl <- gets failed;
  match fl with
   | [] => ret tt
   | _ =>
       logging INFO ("These images failed (available also in error.log), " +:+
                     "warnings are listed in warnings column in output:") ;;
       log_failed fl
   end ;;
  (if symlinkoff args then ret tt
   else
     let origin := realpath env (outdir args) in
     let data_dir := "/app/data/ui/data/" in
     make_dir_safe data_dir ;;
     let target := data_dir +:+ Py.basename (normpath env (outdir args)) in
     if can_symlink env origin target then
       tell (Symlink origin target) ;;
       logging INFO "Symlink to output directory created"
     else
       logging ERROR ("Error creating symlink to output in UserInterface/Data, " +:+
                      "need to perform this manually for output to work! ln -s " +:+
                      origin +:+ " " +:+ target)) ;;
  tell (CopyFile "error.log" (outdir args +:+ os_sep +:+ "error.log")).

(** The paths given to the workers: [os.path.realpath] of each file. *)
Definition dispatched (files : list string) : list string :=
  realpath env <$> files.

(** [multiprocessing.Pool(processes=n, ...)]: the number of processes is 1
    at least. The workers of the pool load the pipeline again, each in its
    own memory. *)
Definition new_pool (processes : Z) : M unit :=
  if processes <? 1
  then raise (Exception (ValueError "Number of processes must be at least 1"))
  else ret tt.

(** [main] up to the choice of the report file: the arguments, the
    configuration, the pipeline, the pool, the output directory and the
    metadata lines. [args.config] has a default and is never [None], so the
    warning about a missing configuration file is never logged. *)
Definition startup (argv : list string)
    : M (Args * config * list (capability * nat)) :=
  append_header ("start_time:" +:+ Py.tab +:+ now env) ;;
  if (length argv =? 1)%nat then tell PrintHelp ;; sys_exit 1
  else
    match parse_args env argv with
    | None => sys_exit 2
    | Some args =>
        let lconfig := read_config env (config_path args) in
        do process_queue <- load_pipeline env true lconfig;
        new_pool (nthreads args) ;;
        logging INFO "----------" ;;
        make_dir_safe (outdir args) ;;
        append_header ("outdir:" +:+ Py.tab +:+ realpath env (outdir args)) ;;
        append_header ("config_file:" +:+ Py.tab +:+ realpath env (config_path args)) ;;
        append_header ("command_line_args:" +:+ Py.tab +:+ Py.join " " argv) ;;
        ret (args, lconfig, process_queue)
    end.

Definition main (argv : list string) (order : list nat) : M unit :=
  let lock := PLock in
  let shared_dict := PSharedDict in
  do started <- startup argv;
  let '(args, lconfig, process_queue) := started in
  do overwrite_flag <- choose_flag args;
  open_report args overwrite_flag ;;
  do files <- enumerate args;
  logging INFO ("Number of files detected by pattern:" +:+ Py.tab +:+
                Py.str_int (Z.of_nat (length files))) ;;
  pool_loop args overwrite_flag lconfig process_queue lock shared_dict
            (dispatched files) order ∅ 0%nat ;;
  finish args.

End Main.

(** ** Reference definitions, in the words of the specification *)

(** The text of a line before its first tab. *)
Fixpoint before_tab (s : string) : string :=
  match s with
  | "" => ""
  | String a s' => if Ascii.eqb a Py.TAB then "" else String a (before_tab s')
  end.

(** Column 1 of a manifest line as the program takes it: the white space
    at both ends of the line is removed first, tabs among it, and column 1 is
    the text before the first tab of what is left. *)
Definition column1 (line : string) : string := before_tab (Py.strip line).

(** What one manifest line adds to the list of files. *)
Definition manifest_entry (prefix line : string) : list string :=
  if String.prefix "#" line then [] else [prefix +:+ column1 line].

(** The prefix put before the entries of a manifest. *)
Definition base_prefix (args : Args) : string :=
  if String.eqb (basepath args) "" then "" else basepath args +:+ "/".

(** The report, as the specification describes it. *)
Section ReportSpec.

Context (args : Args) (flag : mode).

(** A record is complete when it holds every field it lists for output. *)
Definition complete (s : ItemState) : Prop :=
  Forall (λ f, is_Some (fields s !! f)) (output s).

(** The values of the output fields, in output order. *)
Definition values_of (s : ItemState) : list string :=
  omap (λ f, fields s !! f) (output s).

Definition row_of (s : ItemState) : string := row_text (values_of s) s.

(** The number of the report file that holds the row of the [c]-th
    completed item, [c] counted from 1, for batch size [B]. *)
Definition file_number (B c : Z) : Z := (c - 1) / B + 1.

(** The file that takes the next row once [n] rows are written. *)
Definition file_after (n : Z) : string :=
  match batch_arg args with
  | Bounded B => results_name args (file_number B (n + 1))
  | Unbounded => results_plain args
  end.

(** The counter [n] is a positive multiple of the batch size. *)
Definition rotates (n : Z) : bool :=
  match batch_arg args with
  | Bounded B => (0 <? n) && (n mod B =? 0)
  | Unbounded => false
  end.

(** What the report files see for the item that completes when [n] items
    are already reported; [hs] are the metadata lines of the run. *)
Definition item_events (hs : list string) (n : Z) (s : ItemState) : list event :=
  let f := file_after n in
  (if rotates n then [FClose (file_after (n - 1)); FOpen f flag] else []) ++
  (if is_w flag && ((n =? 0) || rotates n)
   then [FWrite f (metadata_text hs); FWrite f (dataset_text s)] else []) ++
  [FWrite f (row_of s); FFlush f].

(** The same for the items of a run, in completion order, the first of
    them completing when [n] are reported. *)
Fixpoint items_events (hs : list string) (n : Z) (items : list ItemState)
    : list event :=
  match items with
  | [] => []
  | s :: rest => item_events hs n s ++ items_events hs (n + 1) rest
  end.

(** A batch size that counts items: positive when it is a number. *)
Definition sound_batch : Prop :=
  match batch_arg args with
  | Bounded B => 0 < B
  | Unbounded => True
  end.

(** The state in which [callback] leaves the run after a complete record. *)
Definition after_item (s : ItemState) (st : state) : state :=
  let n := nfiledone st in
  let f := if rotates n then results_name args (batch st + 1) else csv_report st in
  {| dirs := dirs st; heap := heap st;
     batch := if rotates n then batch st + 1 else batch st;
     nfiledone := n + 1;
     first := if is_w flag then false else first st || rotates n;
     failed := failed st; headers := headers st;
     csv_report := f;
     trace := trace st ++
       (if rotates n then [FClose (csv_report st); FOpen f flag] else []) ++
       (if (first st || rotates n) && is_w flag
        then [FWrite f (metadata_text (headers st)); FWrite f (dataset_text s)]
        else []) ++
       [FWrite f (row_of s); FFlush f] |}.

(** The run has reported [n] items since the report was opened. *)
Record reported (n : Z) (st : state) : Prop := {
  rep_count : nfiledone st = n;
  rep_nonneg : 0 ≤ n;
  rep_file : csv_report st = file_after (Z.max 0 (n - 1));
  rep_batch : ∀ B, batch_arg args = Bounded B → batch st = file_number B (Z.max 1 n);
  rep_first : is_w flag = true → first st = (n =? 0) }.

(** The texts written to the file that is open at the start of a trace,
    until another file is opened. *)
Fixpoint texts_until_open (tr : list event) : list string :=
  match tr with
  | [] => []
  | FOpen _ _ :: _ => []
  | FWrite _ t :: rest => t :: texts_until_open rest
  | _ :: rest => texts_until_open rest
  end.

(** For each file opened in a trace, in order: its name and the texts
    written to it while it was the open file. *)
Fixpoint sessions (tr : list event) : list (string * list string) :=
  match tr with
  | [] => []
  | FOpen f _ :: rest => (f, texts_until_open rest) :: sessions rest
  | _ :: rest => sessions rest
  end.

(** All the texts written in a trace, in order. *)
Definition written (tr : list event) : list string :=
  omap (λ e, match e with FWrite _ t => Some t | _ => None end) tr.

End ReportSpec.

(** A report row without its line end. *)
Fixpoint chomp (s : string) : string :=
  match s with
  | "" => ""
  | String a s' =>
      match s' with
      | "" => if Ascii.eqb a Py.LF then "" else s
      | _ => String a (chomp s')
      end
  end.

(** The columns a reader of the report finds in a row. *)
Definition columns (row : string) : list string := Py.split Py.TAB (chomp row).

(** The cells of the row of a record: the values of its output fields (one
    empty cell when it has none), then its warnings joined by "|". *)
Definition row_cells (s : ItemState) : list string :=
  (match values_of s with [] => [""] | vs => vs end) ++ [Py.join "|" (warnings s)].

Fixpoint has_tab (s : string) : bool :=
  match s with
  | "" => false
  | String a s' => Ascii.eqb a Py.TAB || has_tab s'
  end.

Definition tab_free (s : string) : Prop := has_tab s = false.

Definition bare_item : ItemState :=
  {| completed := []; output := []; fields := ∅; warnings := []; os_handle := None |}.

(** A record with one output field whose value holds a tab. *)
Definition tabbed_item : ItemState :=
  {| completed := []; output := ["comment"];
     fields := {[ "comment" := "a" +:+ Py.tab +:+ "b" ]};
     warnings := []; os_handle := None |}.

Definition plain_args : Args :=
  {| input_pattern := ["a.svs"]; outdir := "out"; basepath := "";
     config_path := "config.ini"; force := false; batch_arg := Unbounded;
     nthreads := 1; symlinkoff := true |}.

(** C4 as the specification states it, at one record and state: the callback writes a row and
    the row has as many columns as output fields, and one more. *)
Definition one_more_column (args : Args) (flag : mode) (s : ItemState) (st : state) : Prop :=
  ∃ st' row,
    callback args flag (Some s) st = (Return tt, st') ∧
    last (written (trace st')) = Some row ∧
    length (columns row) = (length (output s) + 1)%nat.


(** The append policy: an earlier results file is there and [--force] is not given. *)
Definition append_policy (env : Env) (args : Args) : bool :=
  negb (force args) &&
  bool_decide (glob env (outdir args +:+ "/results*.tsv") ≠ []).

(** What a freshly opened file holds under the fresh-write policy: nothing,
    or the metadata, the header of the first record written to it and that
    record's row, and then rows only. *)
Definition headed (hs : list string) (items : list ItemState) (ts : list string) : Prop :=
  ts = [] ∨
  ∃ s more, s ∈ items ∧
    ts = metadata_text hs :: dataset_text s :: row_of s :: (row_of <$> more).


(** What [worker] does once the output directory is settled: the directory
    is made, the slide is loaded and the steps are run. *)
Definition process_item (env : Env) (i n : nat) (fname : string) (args : Args)
    (lconfig : config) (process_queue : list (capability * nat))
    (lock shared_dict : pval) : M (option ItemState) :=
  make_dir_safe (fname_outdir args fname) ;;
  logging INFO (working_message i n fname) ;;
  do s <- try_except
            (load_and_run env fname args lconfig process_queue lock shared_dict)
            (λ e, raise (Exception (add_args e [fname; exc_code e])));
  ret (Some (pop_os_handle s)).

Definition with_force (b : bool) (args : Args) : Args :=
  {| input_pattern := input_pattern args; outdir := outdir args;
     basepath := basepath args; config_path := config_path args; force := b;
     batch_arg := batch_arg args; nthreads := nthreads args;
     symlinkoff := symlinkoff args |}.

(** A relation between the state before and the state after that a
    computation maintains, whatever its outcome. *)
Definition steady (R : relation state) {T} (m : M T) : Prop :=
  ∀ st, R st (snd (m st)).

(** A view of the state that a computation leaves as it is. *)
Definition same {X} (f : state → X) : relation state := λ st st', f st' = f st.

Abbreviation keeps f := (steady (same f)).

(** The parameter dictionaries after a computation: as many as before, and
    each as before but for the keys "lock" and "shared_dict". *)
Definition params_but_proxies : relation state := λ st st',
  length (heap st') = length (heap st) ∧
  ∀ (a : nat) (k : string), k ≠ "lock" → k ≠ "shared_dict" →
    (heap st' !! a) ≫= (λ d, d !! k) = (heap st !! a) ≫= (λ d, d !! k).

(** The parameters of a step as the configuration gives them. *)
Definition section_params (lconfig : config) (process : string) : params :=
  match lconfig !! process with
  | Some kv => PStr <$> kv
  | None => ∅
  end.

(** A step is called with the two proxies in its parameters. *)
Definition proxies_given (lock sd : pval) (e : event) : Prop :=
  match e with
  | Call _ p => p !! "lock" = Some lock ∧ p !! "shared_dict" = Some sd
  | _ => True
  end.

(** Provided the addresses [addrs] hold dictionaries: the dictionaries stay
    in place and the events added to the trace satisfy [P]. *)
Definition adds_events (P : event → Prop) (addrs : list nat) : relation state :=
  λ st st',
    Forall (λ a, (a < length (heap st))%nat) addrs →
    length (heap st') = length (heap st) ∧
    ∃ new, trace st' = trace st ++ new ∧ Forall P new.


(** The events of a task at work on a slide. *)
Definition is_task_event (e : event) : bool :=
  match e with
  | Load _ _ _ | Call _ _ | Rmtree _ => true
  | _ => false
  end.

Definition task_events (tr : list event) : list event :=
  omap (λ e, if is_task_event e then Some e else None) tr.

(** A computation that cannot raise. *)
Definition returns {T} (m : M T) : Prop :=
  ∀ st, ∃ a st', m st = (Return a, st').


(** A small installation on which the program can be run. *)
Module Demo.

Definition slide (fname : string) : ItemState :=
  {| completed := []; output := ["filename"; "score"];
     fields := {[ "filename" := fname; "score" := "1" ]};
     warnings := ["w1"; "w2"]; os_handle := Some 3%nat |}.

Definition getBasicStats : capability :=
  {| cap_name := "getBasicStats"; cap_run := λ s _, inr s |}.

Definition fault : pyexc :=
  {| exc_class := "ValueError";
     exc_doc := Some "Inappropriate argument value (of correct type).";
     exc_args := ["cannot read the slide"]; exc_code := "<code object getContrast>" |}.

(** A step that fails on the slide X.svs and on no other. *)
Definition getContrast : capability :=
  {| cap_name := "getContrast";
     cap_run := λ s _,
       if bool_decide (fields s !! "filename" = Some "/slides/X.svs")
       then inl fault else inr s |}.

Definition settings : config :=
  {[ "pipeline" := {[ "steps" := "BasicModule.getBasicStats" +:+ Py.nl +:+
                                 "BrightContrastModule.getContrast" ]};
     "BaseImage.BaseImage" := ∅;
     "BasicModule.getBasicStats" := {[ "image_work_size" := "1.25x" ]} ]}.

Definition arguments (inputs : list string) (base : string) (b : batch_size) : Args :=
  {| input_pattern := inputs; outdir := "out"; basepath := base;
     config_path := "config.ini"; force := false; batch_arg := b;
     nthreads := 1; symlinkoff := true |}.

(** [found] is what a glob for slides finds, [listing] the text of the
    manifest list.tsv. *)
Definition system (found : list string) (listing : string) (base : string)
    (b : batch_size) : Env :=
  {| realpath := λ p, if String.prefix "/" p then p else "/slides/" +:+ p;
     glob := λ p, if Py.endswith p "results*.tsv" then [] else found;
     read_text := λ p, if String.eqb p "list.tsv" then Some listing else None;
     parse_args := λ argv, Some (arguments (tl argv) base b);
     read_config := λ _, settings;
     now := "2024-01-01 00:00:00";
     lookup_func := λ _ f, if String.eqb f "getContrast" then inr getContrast
                           else inr getBasicStats;
     BaseImage := λ fname _ _, inr (slide fname);
     repr := λ s, "'" +:+ s +:+ "'";
     normpath := λ p, p;
     can_symlink := λ _ _, true |}.

(** The manifest list.tsv of the demonstration: a comment and two slides. *)
Definition listing : string :=
  "#slides of the study" +:+ Py.nl +:+
  "A.svs" +:+ Py.tab +:+ "first" +:+ Py.nl +:+
  "B.svs" +:+ Py.nl.

(** Four results in completion order; the second slide was skipped. *)
Definition three_results : list (option ItemState) :=
  [Some (slide "/slides/A.svs"); None;
   Some (slide "/slides/B.svs"); Some (slide "/slides/C.svs")].

End Demo.

(** A path from the root. *)
Definition is_absolute (p : string) : bool := String.prefix "/" p.

(** C6 as the specification states it, for the files given to the workers:
    no path occurs twice. *)
Definition deduplicated (env : Env) (args : Args) : Prop :=
  ∀ files st st', enumerate env args st = (Return files, st') →
                  NoDup (dispatched env files).

(** C6 as the specification states it, for the base path: every entry of
    the list that is a relative path carries the base-path prefix. *)
Definition prefixed_when_relative (env : Env) (args : Args) : Prop :=
  ∀ files st st', enumerate env args st = (Return files, st') →
                  Forall (λ f, is_absolute f = false →
                               String.prefix (base_prefix args) f = true) files.

(** C8 as the specification states it: a line that is no comment adds the
    base-path prefix joined with the first tab-separated column of the line,
    the line taken without its line end. *)
Definition first_column_entry (prefix line : string) : list string :=
  if String.prefix "#" line then [] else [prefix +:+ before_tab (chomp line)].

Definition manifest_by_first_column (env : Env) (args : Args) : Prop :=
  ∀ pattern text st,
    input_pattern args = [pattern] →
    Py.endswith pattern "tsv" = true →
    read_text env pattern = Some text →
    enumerate env args st
    = (Return (flat_map (first_column_entry (base_prefix args)) (Py.readlines text)), st).


(** C7 as the specification states it, for one command line: when the program starts up and
    its input names no file at all, it exits with status 1. *)
Definition empty_input_exits (env : Env) (argv : list string) (order : list nat) : Prop :=
  ∀ args lconfig q st1,
    startup env argv (initial ∅) = (Return (args, lconfig, q), st1) →
    (∀ st, enumerate env args st = (Return [], st)) →
    fst (main env argv order (initial ∅)) = Raise (SystemExit 1).

(** C9 as the specification states it, for one slide: once the pipeline is loaded, running the
    worker leaves every parameter dictionary as it was. *)
Definition parameters_read_only (env : Env) (lconfig : config) (fname : string)
    (args : Args) : Prop :=
  ∀ q st,
    load_pipeline env true lconfig (initial ∅) = (Return q, st) →
    heap (snd (worker env 0 1 fname args lconfig q PLock PSharedDict st)) = heap st.

(** The metadata lines of a run, in the order in which [main] and
    [load_pipeline] add them to [headers]; [text] is the configured list of
    steps. *)
Definition run_metadata (env : Env) (argv : list string) (args : Args)
    (text : string) : list string :=
  ["start_time:" +:+ Py.tab +:+ now env;
   "pipeline: " +:+ Py.join " " (Py.splitlines text);
   "outdir:" +:+ Py.tab +:+ realpath env (outdir args);
   "config_file:" +:+ Py.tab +:+ realpath env (config_path args);
   "command_line_args:" +:+ Py.tab +:+ Py.join " " argv].

(** The counters of the report. *)
Definition counters (st : state) : Z * Z * bool := (batch st, nfiledone st, first st).

(** The events on the report files. *)
Definition is_file_event (e : event) : bool :=
  match e with
  | FOpen _ _ | FWrite _ _ | FFlush _ | FClose _ => true
  | _ => false
  end.

Definition file_events (tr : list event) : list event :=
  omap (λ e, if is_file_event e then Some e else None) tr.

(** What the report depends on: the counters, the open file, the metadata
    lines and the events on the report files so far. *)
Definition report_view (st : state)
    : Z * Z * bool * string * list string * list event :=
  (batch st, nfiledone st, first st, csv_report st, headers st,
   file_events (trace st)).


(** ** Further reference definitions *)

(** The names of the steps called in a trace, in order. *)
Definition called (tr : list event) : list string :=
  omap (λ e, match e with Call name _ => Some name | _ => None end) tr.

(** The names of the steps of a queue, in order. *)
Definition step_names (q : list (capability * nat)) : list string :=
  (λ pa, cap_name pa.1) <$> q.

(** The slides given to the loader in a trace, in order. *)
Definition loaded (tr : list event) : list string :=
  omap (λ e, match e with Load fname _ _ => Some fname | _ => None end) tr.

(** The directories outside the tree of [d] stay. *)
Definition keeps_outside (d : string) : relation state := λ st st',
  ∀ p, p ∈ dirs st → under (no_final_slash d) p = false → p ∈ dirs st'.

(** The events on the report file for the rows of some records. *)
Definition row_events (f : string) (items : list ItemState) : list event :=
  flat_map (λ s, [FWrite f (row_of s); FFlush f]) items.

(** The files opened in a trace, in order. *)
Definition opened (tr : list event) : list string :=
  omap (λ e, match e with FOpen f _ => Some f | _ => None end) tr.

(** The number of the report file in use once [n] rows are written. *)
Definition current_file (B n : Z) : Z := file_number B (Z.max 1 n).

(** A configured step is resolved: its identifier has one dot, the name
    before a colon is found in the module, and the dictionary at the address
    holds the section of the whole identifier. *)
Definition resolved (env : Env) (lconfig : config) (h : list params)
    (process : string) (ca : capability * nat) : Prop :=
  ∃ mod_name func_name,
    Py.split "." process = [mod_name; func_name] ∧
    lookup_func env mod_name (hd "" (Py.split ":" func_name)) = inr ca.1 ∧
    h !! ca.2 = Some (section_params lconfig process).

(** The state without its trace. *)
Definition beside_trace (st : state)
    : gset string * list params * Z * Z * bool * list (string * string) *
      list string * string :=
  (dirs st, heap st, batch st, nfiledone st, first st, failed st, headers st,
   csv_report st).

(** The name of the report file that [main] opens first. *)
Definition first_report (args : Args) (b : Z) : string :=
  match batch_arg args with
  | Bounded _ => results_name args b
  | Unbounded => results_plain args
  end.

(** An installation whose command line holds options only. *)
Definition options_only (args : Args) : Env :=
  {| realpath := realpath (Demo.system [] "" "" Unbounded);
     glob := glob (Demo.system [] "" "" Unbounded);
     read_text := read_text (Demo.system [] "" "" Unbounded);
     parse_args := λ _, Some args;
     read_config := read_config (Demo.system [] "" "" Unbounded);
     now := now (Demo.system [] "" "" Unbounded);
     lookup_func := lookup_func (Demo.system [] "" "" Unbounded);
     BaseImage := BaseImage (Demo.system [] "" "" Unbounded);
     repr := repr (Demo.system [] "" "" Unbounded);
     normpath := normpath (Demo.system [] "" "" Unbounded);
     can_symlink := can_symlink (Demo.system [] "" "" Unbounded) |}.

(** The results that [main] took from the pool and logged, in order. *)
Definition results_logged (tr : list event) : list (option ItemState) :=
  omap (λ e, match e with LogResult v => Some v | _ => None end) tr.

(** The first [n] dictionaries stay as they are. *)
Definition keeps_dicts (n : nat) : relation state := λ st st',
  (n ≤ length (heap st))%nat →
  (n ≤ length (heap st'))%nat ∧ take n (heap st') = take n (heap st).

(** A record that lists an output field it does not hold. *)
Definition short_record : ItemState :=
  {| completed := []; output := ["filename"; "score"];
     fields := {[ "filename" := "/slides/A.svs" ]};
     warnings := []; os_handle := None |}.

(** The state in which [callback] stands when it comes to read the values
    of a record: the rotation and the header lines, when they were due, are
    done, and no row is written. *)
Definition before_row (args : Args) (flag : mode) (s : ItemState) (st : state) : state :=
  let n := nfiledone st in
  let f := if rotates args n then results_name args (batch st + 1) else csv_report st in
  {| dirs := dirs st; heap := heap st;
     batch := if rotates args n then batch st + 1 else batch st;
     nfiledone := n;
     first := if is_w flag then false else first st || rotates args n;
     failed := failed st; headers := headers st;
     csv_report := f;
     trace := trace st ++
       (if rotates args n then [FClose (csv_report st); FOpen f flag] else []) ++
       (if (first st || rotates args n) && is_w flag
        then [FWrite f (metadata_text (headers st)); FWrite f (dataset_text s)]
        else []) |}.

(** * Theorems *)

(** ** Strings *)

Lemma append_cons (x : ascii) (a b : string) :
  String x a +:+ b = String x (a +:+ b).
Proof. reflexivity. Qed.

Lemma append_nil_l (b : string) : "" +:+ b = b.
Proof. reflexivity. Qed.

Lemma append_assoc (a b c : string) : (a +:+ b) +:+ c = a +:+ (b +:+ c).
Proof.
  induction a as [|x a IH]; [done |].
  rewrite !append_cons. by f_equal.
Qed.

Lemma append_nil_r (a : string) : a +:+ "" = a.
Proof.
  induction a as [|x a IH]; [done |].
  rewrite append_cons. by f_equal.
Qed.

Lemma split_nonempty (c : ascii) (s : string) : Py.split c s ≠ [].
Proof.
  induction s as [|a s IH]; simpl; [done |].
  destruct (Ascii.eqb a c); [done |].
  by destruct (Py.split c s).
Qed.

Lemma split_head (s : string) : hd "" (Py.split Py.TAB s) = before_tab s.
Proof.
  induction s as [|a s IH]; simpl; [done |].
  destruct (Ascii.eqb a Py.TAB); [done |].
  destruct (Py.split Py.TAB s) as [|w ws] eqn:E; simpl in *.
  - by destruct (split_nonempty Py.TAB s).
  - by rewrite IH.
Qed.

Lemma readlines_nonempty (text : string) : Forall (λ l, l ≠ "") (Py.readlines text).
Proof.
  induction text as [|a s IH]; simpl; [constructor |].
  destruct (Ascii.eqb a Py.LF).
  - constructor; [done | exact IH].
  - destruct (Py.readlines s) as [|l ls]; [by repeat constructor |].
    inversion IH; subst. by constructor.
Qed.

(** ** The manifest *)

Lemma is_comment_prefix (line : string) : is_comment line = String.prefix "#" line.
Proof.
  destruct line as [|a l]; [done |]. unfold is_comment.
  change (String.prefix "#" (String a l))
    with (match ascii_dec "#" a with
          | left _ => String.prefix "" l
          | right _ => false
          end).
  destruct (ascii_dec "#" a) as [<-|Hne].
  - by destruct l.
  - apply Ascii.eqb_neq. congruence.
Qed.

Lemma manifest_loop_spec (prefix : string) (lines files : list string) :
  manifest_loop prefix lines files = files ++ flat_map (manifest_entry prefix) lines.
Proof.
  revert files. induction lines as [|line rest IH]; intros files; simpl.
  - by rewrite app_nil_r.
  - unfold manifest_entry at 1. rewrite <- is_comment_prefix.
    destruct (is_comment line); rewrite IH; simpl; [done |].
    unfold first_column, column1. rewrite split_head.
    by rewrite <- List.app_assoc.
Qed.

Lemma base_prefix_eq (args : Args) :
  (if (0 <? String.length (basepath args))%nat then basepath args +:+ os_sep else "")
  = base_prefix args.
Proof. unfold base_prefix. by destruct (basepath args). Qed.

(** C8, amended. For a manifest (a single input whose name ends in "tsv"),
    the list of files is made line by line: a line that begins with '#' adds
    nothing, and every other line adds exactly one entry, the base-path
    prefix followed by the first tab-separated column of the line once the
    white space at both ends of the line, its line end and any tabs among
    it, is removed. *)
Theorem manifest_lines_to_entries (env : Env) (args : Args) (pattern text : string)
    (st : state) :
  input_pattern args = [pattern] →
  Py.endswith pattern "tsv" = true →
  read_text env pattern = Some text →
  enumerate env args st
  = (Return (flat_map (manifest_entry (base_prefix args)) (Py.readlines text)), st).
Proof.
  intros Hpat Hend Hread. unfold enumerate.
  rewrite Hpat, Hend, Hread, base_prefix_eq.
  by rewrite manifest_loop_spec.
Qed.

(** ** Running the monad *)

Arguments callback : simpl never.
Arguments item_values : simpl never.
Arguments results_name : simpl never.
Arguments results_plain : simpl never.
Arguments metadata_text : simpl never.
Arguments dataset_text : simpl never.
Arguments row_text : simpl never.

Ltac run_monad :=
  unfold bind, gets, modify, ret, raise, sys_exit, tell, logging, fclose, fopen,
    fwrite, fflush, emit, set_nfiledone, set_first, set_batch, set_csv_report,
    set_headers, set_failed, set_dirs, set_heap; simpl.

Lemma bind_run {T U} (m : M T) (k : T → M U) st a st' :
  m st = (Return a, st') → bind m k st = k a st'.
Proof. intros H. unfold bind. by rewrite H. Qed.

Lemma bind_raise {T U} (m : M T) (k : T → M U) st e st' :
  m st = (Raise e, st') → bind m k st = (Raise e, st').
Proof. intros H. unfold bind. by rewrite H. Qed.

(** ** The callback *)

Section ReportFacts.

Context (args : Args) (flag : mode).

Lemma item_values_complete (s : ItemState) (names : list string) (st : state) :
  Forall (λ f, is_Some (fields s !! f)) names →
  item_values s names st = (Return (omap (λ f, fields s !! f) names), st).
Proof.
  induction 1 as [|f names [v Hv] _ IH]; [done |].
  unfold item_values; fold item_values. simpl. rewrite Hv.
  unfold bind. by rewrite IH.
Qed.

Lemma rotate_due_rotates n st :
  sound_batch args → 0 ≤ n →
  rotate_due n (batch_arg args) st = (Return (rotates args n), st).
Proof.
  unfold sound_batch, rotate_due, rotates. intros HB Hn.
  destruct (Z.eqb_spec n 0) as [->|Hne].
  - destruct (batch_arg args); [done |]. by rewrite Z.ltb_irrefl.
  - destruct (batch_arg args) as [|B]; [done |].
    destruct (Z.eqb_spec B 0); [lia |].
    replace (0 <? n) with true by (symmetry; apply Z.ltb_lt; lia). done.
Qed.

Lemma callback_some s st :
  sound_batch args → 0 ≤ nfiledone st → complete s →
  callback args flag (Some s) st = (Return tt, after_item args flag s st).
Proof.
  intros HB Hn Hc. unfold callback.
  unfold bind at 1, gets at 1.
  unfold bind at 1. rewrite rotate_due_rotates by done.
  unfold after_item, row_of, values_of.
  pose proof (item_values_complete s (output s)) as Hv.
  destruct st as [d h b n f fl hs cr tr]; simpl in *.
  destruct (rotates args n), f, flag; run_monad; rewrite Hv by done; simpl;
    rewrite <- ?List.app_assoc; reflexivity.
Qed.

(** The arithmetic of the rotation *)
Lemma div_pred_multiple (B n : Z) :
  0 < B → 0 < n → n mod B = 0 → (n - 1) / B + 1 = n / B.
Proof.
  intros HB Hn Hm.
  pose proof (Z.div_mod n B ltac:(lia)) as Hdm. rewrite Hm in Hdm.
  assert ((n - 1) / B = n / B - 1); [| lia].
  symmetry. apply Z.div_unique with (r := B - 1); lia.
Qed.

Lemma div_pred_other (B n : Z) :
  0 < B → 0 < n → n mod B ≠ 0 → (n - 1) / B = n / B.
Proof.
  intros HB Hn Hm.
  pose proof (Z.div_mod n B ltac:(lia)) as Hdm.
  pose proof (Z.mod_pos_bound n B HB) as Hb.
  symmetry. apply Z.div_unique with (r := n mod B - 1); lia.
Qed.

Lemma rotation_batch B n st :
  batch_arg args = Bounded B → 0 < B →
  reported args flag n st → rotates args n = true →
  batch st + 1 = file_number B (n + 1) ∧ batch st = file_number B n ∧ 0 < n.
Proof.
  intros HB Hpos [Hc Hn Hf Hb Hfst]. unfold rotates. rewrite HB. intros Hr.
  apply andb_true_iff in Hr as [Hn' Hmod].
  apply Z.ltb_lt in Hn'. apply Z.eqb_eq in Hmod.
  rewrite (Hb B HB). unfold file_number. rewrite Z.max_r by lia.
  replace (n + 1 - 1) with n by lia.
  rewrite <- (div_pred_multiple B n) by done. lia.
Qed.

Lemma steady_batch B n st :
  batch_arg args = Bounded B → 0 < B →
  reported args flag n st → rotates args n = false →
  batch st = file_number B (n + 1) ∧
  file_number B (Z.max 0 (n - 1) + 1) = file_number B (n + 1).
Proof.
  intros HB Hpos [Hc Hn Hf Hb Hfst]. unfold rotates. rewrite HB. intros Hr.
  rewrite (Hb B HB). unfold file_number.
  destruct (Z.eq_dec n 0) as [->|Hne]; [done |].
  rewrite !Z.max_r by lia.
  apply andb_false_iff in Hr as [Hr|Hr]; [apply Z.ltb_ge in Hr; lia |].
  apply Z.eqb_neq in Hr.
  replace (n - 1 + 1 - 1) with (n - 1) by lia.
  replace (n + 1 - 1) with n by lia.
  by rewrite div_pred_other by lia.
Qed.

Lemma rotation_files n st :
  sound_batch args → reported args flag n st → rotates args n = true →
  results_name args (batch st + 1) = file_after args n ∧
  csv_report st = file_after args (n - 1).
Proof.
  intros HB Hrep Hr. pose proof Hrep as [Hc Hn Hf Hb Hfst].
  unfold file_after, sound_batch in *.
  destruct (batch_arg args) as [|B] eqn:E; [by unfold rotates in Hr; rewrite E in Hr |].
  destruct (rotation_batch B n st E HB Hrep Hr) as (-> & _ & Hpos).
  split; [done |]. rewrite Hf. by rewrite Z.max_r by lia.
Qed.

Lemma steady_file n st :
  sound_batch args → reported args flag n st → rotates args n = false →
  csv_report st = file_after args n.
Proof.
  intros HB Hrep Hr. pose proof Hrep as [Hc Hn Hf Hb Hfst].
  unfold file_after, sound_batch in *. rewrite Hf.
  destruct (batch_arg args) as [|B] eqn:E; [done |].
  by destruct (steady_batch B n st E HB Hrep Hr) as (_ & ->).
Qed.

Lemma after_item_trace n s st :
  sound_batch args → reported args flag n st →
  trace (after_item args flag s st) = trace st ++ item_events args flag (headers st) n s.
Proof.
  intros HB Hrep. pose proof Hrep as [Hc Hn Hf Hb Hfst].
  unfold after_item, item_events. simpl. rewrite Hc.
  destruct (rotates args n) eqn:Hr.
  - destruct (rotation_files n st HB Hrep Hr) as [-> ->].
    by rewrite !orb_true_r, (andb_comm _ (is_w flag)).
  - rewrite (steady_file n st HB Hrep Hr), !orb_false_r.
    destruct (is_w flag) eqn:Hw.
    + by rewrite (Hfst eq_refl), andb_true_r.
    + by rewrite andb_false_r.
Qed.

Lemma after_item_reported n s st :
  sound_batch args → reported args flag n st →
  reported args flag (n + 1) (after_item args flag s st).
Proof.
  intros HB Hrep. pose proof Hrep as [Hc Hn Hf Hb Hfst].
  split; simpl.
  - lia.
  - lia.
  - rewrite Hc. replace (Z.max 0 (n + 1 - 1)) with n by lia.
    destruct (rotates args n) eqn:Hr.
    + by destruct (rotation_files n st HB Hrep Hr) as [-> _].
    + by apply steady_file.
  - intros B HB'. rewrite Hc. rewrite Z.max_r by lia.
    assert (0 < B) by (unfold sound_batch in HB; by rewrite HB' in HB).
    destruct (rotates args n) eqn:Hr.
    + by destruct (rotation_batch B n st HB' ltac:(done) Hrep Hr) as (-> & _).
    + by destruct (steady_batch B n st HB' ltac:(done) Hrep Hr) as (-> & _).
  - intros Hw. rewrite Hw. symmetry. apply Z.eqb_neq. lia.
Qed.

Lemma deliver_items (items : list ItemState) n st :
  sound_batch args → reported args flag n st → Forall (complete) items →
  ∃ st', deliver args flag (Some <$> items) st = (Return tt, st') ∧
         trace st' = trace st ++ items_events args flag (headers st) n items ∧
         reported args flag (n + Z.of_nat (length items)) st' ∧
         headers st' = headers st ∧ dirs st' = dirs st ∧ heap st' = heap st ∧
         failed st' = failed st.
Proof.
  intros HB Hrep Hall. revert n st Hrep.
  induction Hall as [|s items Hs _ IH]; intros n st Hrep.
  - exists st. simpl. rewrite app_nil_r, Z.add_0_r. done.
  - simpl deliver. pose proof Hrep as [Hc Hn _ _ _].
    erewrite bind_run by (apply callback_some; [done | lia | done]).
    destruct (IH (n + 1) _ (after_item_reported n s st HB Hrep))
      as (st' & Hrun & Htr & Hrep' & Hh & Hd & Hhp & Hfl).
    exists st'. split; [done |]. split; [| split; [| done]].
    + rewrite Htr, (after_item_trace n s st HB Hrep). simpl.
      by rewrite <- List.app_assoc.
    + replace (n + Z.of_nat (length (s :: items))) with (n + 1 + Z.of_nat (length items)); [done |].
      simpl length. lia.
Qed.

Lemma deliver_skips_none (rs : list (option ItemState)) st :
  deliver args flag rs st = deliver args flag (Some <$> omap id rs) st.
Proof.
  revert st. induction rs as [|[s|] rs IH]; intros st; simpl; [done | |].
  - unfold bind. destruct (callback args flag (Some s) st) as [[[]|e] st1]; [apply IH | done].
  - apply IH.
Qed.

Lemma item_values_state (s : ItemState) (names : list string) (st : state) :
  snd (item_values s names st) = st.
Proof.
  induction names as [|f names IH]; [done |].
  unfold item_values; fold item_values.
  destruct (fields s !! f); [| done].
  unfold bind. destruct (item_values s names st) as [[vs|e] st1]; simpl in *; by subst.
Qed.

Lemma rotate_due_state n b (st : state) : snd (rotate_due n b st) = st.
Proof.
  unfold rotate_due. destruct (n =? 0); [done |].
  destruct b as [|B]; [done |]. by destruct (B =? 0).
Qed.

Lemma callback_counter (s : ItemState) (st st' : state) :
  callback args flag (Some s) st = (Return tt, st') →
  nfiledone st' = nfiledone st + 1.
Proof.
  unfold callback. unfold bind at 1, gets at 1. unfold bind at 1.
  pose proof (rotate_due_state (nfiledone st) (batch_arg args) st) as Hr.
  destruct (rotate_due (nfiledone st) (batch_arg args) st) as [[due|e] st1];
    simpl in Hr; subst st1; [| done].
  pose proof (item_values_state s (output s)) as Hv.
  destruct st as [d h b n f fl hs cr tr].
  destruct due, f, flag; run_monad;
    match goal with
    | |- context [item_values s (output s) ?x] =>
        specialize (Hv x); destruct (item_values s (output s) x) as [[vs|e] st2];
        simpl in Hv; subst st2; [| done]
    end; intros [= <-]; done.
Qed.

Lemma deliver_counter (items : list ItemState) (st st' : state) :
  deliver args flag (Some <$> items) st = (Return tt, st') →
  nfiledone st' = nfiledone st + Z.of_nat (length items).
Proof.
  revert st. induction items as [|s items IH]; intros st; simpl.
  - intros [= <-]. lia.
  - unfold bind. destruct (callback args flag (Some s) st) as [[[]|e] st1] eqn:E; [| done].
    intros H. apply IH in H. apply callback_counter in E. lia.
Qed.

(** C10. When a task returns no record (the slide was skipped because its
    output directory was there and force was not set), the callback returns at
    once and leaves the whole state as it is: no row and no header are
    written, and the counter of completed items does not advance. Hence
    delivering a list of results is the same as delivering the records among
    them, and after a run of deliveries the counter has grown by the number
    of records, the skipped results not counted. *)
Theorem skipped_result_is_ignored (rs : list (option ItemState)) (st : state) :
  callback args flag None st = (Return tt, st) ∧
  deliver args flag rs st = deliver args flag (Some <$> omap id rs) st ∧
  ∀ st', deliver args flag rs st = (Return tt, st') →
         nfiledone st' = nfiledone st + Z.of_nat (length (omap id rs)).
Proof.
  split; [done |]. split; [apply deliver_skips_none |].
  intros st'. rewrite deliver_skips_none. apply deliver_counter.
Qed.

Lemma open_report_fresh (st : state) :
  batch st = 1 → nfiledone st = 0 → first st = true →
  let st1 := set_csv_report (file_after args 0) (emit (FOpen (file_after args 0) flag) st) in
  open_report args flag st = (Return tt, st1) ∧ reported args flag 0 st1.
Proof.
  intros Hb Hn Hf. unfold open_report, file_after, file_number.
  destruct st as [d h b n f fl hs cr tr]; simpl in *; subst.
  split.
  - by destruct (batch_arg args).
  - split; simpl; done.
Qed.

Lemma row_in_items_events (hs : list string) (items : list ItemState) (n : Z)
    (c : nat) (s : ItemState) :
  items !! c = Some s →
  FWrite (file_after args (n + Z.of_nat c)) (row_of s) ∈ items_events args flag hs n items.
Proof.
  revert n c. induction items as [|s0 items IH]; intros n c; [done |].
  simpl. destruct c as [|c]; simpl.
  - intros [= ->]. rewrite Z.add_0_r. unfold item_events.
    rewrite !elem_of_app. left. right. right. set_solver.
  - intros H. apply elem_of_app. right.
    specialize (IH (n + 1) c H).
    replace (n + 1 + Z.of_nat c) with (n + Z.of_nat (S c)) in IH by lia.
    exact IH.
Qed.

(** C2. For a finite batch size B (a positive number), whatever the order
    in which the items complete: once the first report file is opened and
    the results are delivered to the callback, the files see exactly the
    events [items_events] lists; in particular the row of the c-th completed
    item (c counted from 1) is written to the report file number
    (c - 1) / B + 1. And whenever the counter of completed items is a
    positive multiple of B, the callback closes the current file, opens the
    next one, its suffix one more, and the header is due again (written
    under the fresh-write policy whatever the header flag was). *)
Theorem rows_land_by_counter (B : Z) (rs : list (option ItemState)) (st : state) :
  batch_arg args = Bounded B → 0 < B →
  batch st = 1 → nfiledone st = 0 → first st = true →
  Forall complete (omap id rs) →
  ∃ st',
    (open_report args flag ;; deliver args flag rs) st = (Return tt, st') ∧
    trace st' = trace st ++ FOpen (results_name args 1) flag ::
                  items_events args flag (headers st) 0 (omap id rs) ∧
    (∀ (c : nat) (s : ItemState),
       (1 ≤ c)%nat → omap id rs !! (c - 1)%nat = Some s →
       FWrite (results_name args ((Z.of_nat c - 1) / B + 1)) (row_of s) ∈ trace st') ∧
    (∀ (st1 : state) (s : ItemState),
       0 < nfiledone st1 → nfiledone st1 mod B = 0 → complete s →
       let f := results_name args (batch st1 + 1) in
       ∃ st2,
         callback args flag (Some s) st1 = (Return tt, st2) ∧
         batch st2 = batch st1 + 1 ∧ csv_report st2 = f ∧
         trace st2 = trace st1 ++ [FClose (csv_report st1); FOpen f flag] ++
           (if is_w flag
            then [FWrite f (metadata_text (headers st1)); FWrite f (dataset_text s)]
            else []) ++
           [FWrite f (row_of s); FFlush f]).
Proof.
  intros HB Hpos Hb Hn Hf Hall.
  destruct (open_report_fresh st Hb Hn Hf) as [Hopen Hrep].
  assert (sound_batch args) as Hsound by (unfold sound_batch; by rewrite HB).
  destruct (deliver_items (omap id rs) 0 _ Hsound Hrep Hall)
    as (st' & Hrun & Htr & _).
  assert (file_after args 0 = results_name args 1) as H0.
  { unfold file_after. by rewrite HB. }
  exists st'. split; [| split; [| split]].
  - erewrite bind_run by exact Hopen. by rewrite deliver_skips_none.
  - rewrite Htr. simpl. rewrite <- List.app_assoc. simpl. by rewrite H0.
  - intros c s Hc Hs. rewrite Htr. apply elem_of_app. right.
    pose proof (row_in_items_events (headers st) _ 0 _ _ Hs) as Hin.
    unfold file_after, file_number in Hin. rewrite HB in Hin.
    replace (0 + Z.of_nat (c - 1) + 1 - 1) with (Z.of_nat c - 1) in Hin by lia.
    exact Hin.
  - intros st1 s Hn' Hmod Hs f.
    exists (after_item args flag s st1).
    split; [apply callback_some; [done | lia | done] |].
    unfold after_item, rotates. rewrite HB.
    replace (0 <? nfiledone st1) with true by (symmetry; apply Z.ltb_lt; lia).
    replace (nfiledone st1 mod B =? 0) with true by (symmetry; apply Z.eqb_eq; lia).
    simpl. by rewrite orb_true_r.
Qed.

End ReportFacts.

(** ** The columns of a row *)

Lemma chomp_line (x : string) : chomp (x +:+ Py.nl) = x.
Proof.
  induction x as [|a x IH]; [done |].
  rewrite append_cons. simpl.
  destruct (x +:+ Py.nl) eqn:E.
  - by destruct x.
  - by rewrite IH.
Qed.

Lemma has_tab_app (a b : string) : has_tab (a +:+ b) = has_tab a || has_tab b.
Proof.
  induction a as [|x a IH]; [done |].
  rewrite append_cons. simpl. rewrite IH. by rewrite orb_assoc.
Qed.

Lemma split_tab_free (a : string) : tab_free a → Py.split Py.TAB a = [a].
Proof.
  unfold tab_free. induction a as [|x a IH]; [done |]. simpl.
  intros [Hx Ha]%orb_false_iff. rewrite Hx, (IH Ha). done.
Qed.

Lemma split_tab_app (a b : string) :
  tab_free a → Py.split Py.TAB (a +:+ Py.tab +:+ b) = a :: Py.split Py.TAB b.
Proof.
  unfold tab_free. induction a as [|x a IH].
  - intros _. done.
  - intros [Hx Ha]%orb_false_iff. rewrite append_cons.
    change (Py.split Py.TAB (String x (a +:+ Py.tab +:+ b)))
      with (if Ascii.eqb x Py.TAB then "" :: Py.split Py.TAB (a +:+ Py.tab +:+ b)
            else match Py.split Py.TAB (a +:+ Py.tab +:+ b) with
                 | [] => [String x ""]
                 | w :: ws => String x w :: ws
                 end).
    rewrite Hx, (IH Ha). done.
Qed.

Lemma join_tab_free (sep : string) (l : list string) :
  tab_free sep → Forall tab_free l → tab_free (Py.join sep l).
Proof.
  intros Hsep. induction 1 as [|x l Hx Hl IH]; [done |].
  destruct l as [|y l]; [done |].
  change (Py.join sep (x :: y :: l)) with (x +:+ sep +:+ Py.join sep (y :: l)).
  unfold tab_free in *. rewrite !has_tab_app, Hx, Hsep, IH. done.
Qed.

Lemma split_row (vals : list string) (w : string) :
  Forall tab_free vals → tab_free w →
  Py.split Py.TAB (Py.join Py.tab vals +:+ Py.tab +:+ w)
  = (match vals with [] => [""] | _ => vals end) ++ [w].
Proof.
  intros Hv Hw. induction Hv as [|v vals Hv Hvs IH].
  - simpl Py.join. rewrite (split_tab_app "" w) by done. by rewrite split_tab_free.
  - destruct vals as [|v2 vals].
    + simpl Py.join. rewrite split_tab_app by done. by rewrite split_tab_free.
    + change (Py.join Py.tab (v :: v2 :: vals))
        with (v +:+ Py.tab +:+ Py.join Py.tab (v2 :: vals)).
      rewrite !append_assoc. rewrite split_tab_app by done.
      rewrite <- append_assoc in IH. rewrite append_assoc in IH. by rewrite IH.
Qed.

Lemma present_values_length (s : ItemState) (names : list string) :
  Forall (λ f, is_Some (fields s !! f)) names →
  length (omap (λ f, fields s !! f) names) = length names.
Proof.
  induction 1 as [|f l [v Hv] _ IH]; [done |].
  simpl. rewrite Hv. simpl. f_equal. exact IH.
Qed.

Lemma values_of_length (s : ItemState) :
  complete s → length (values_of s) = length (output s).
Proof. apply present_values_length. Qed.

Section RowFacts.

Context (args : Args) (flag : mode).

Lemma row_is_join (vals : list string) (w : string) :
  Py.join Py.tab vals +:+ Py.tab +:+ w
  = Py.join Py.tab ((match vals with [] => [""] | _ => vals end) ++ [w]).
Proof.
  induction vals as [|v vals IH]; [done |].
  destruct vals as [|v2 vals]; [done |].
  change (Py.join Py.tab (v :: v2 :: vals))
    with (v +:+ Py.tab +:+ Py.join Py.tab (v2 :: vals)).
  rewrite !append_assoc, IH. done.
Qed.

(** C4, amended. For a complete record the callback writes exactly one row,
    after the header lines when they are due; the row is the last text
    written and the flush follows it at once. The row is made of cells
    joined by tabs: the values of the output fields in output order, then
    one cell with the warnings joined by "|". Provided no value and no
    warning holds a tab, these cells are the tab-separated columns of the
    row: one column more than there are output fields when there is at
    least one output field; with no output field the row still opens with a
    tab, so it has two columns, the first of them empty. *)
Theorem row_columns (s : ItemState) (st : state) :
  sound_batch args → 0 ≤ nfiledone st → complete s →
  ∃ st' pre head,
    callback args flag (Some s) st = (Return tt, st') ∧
    trace st' = pre ++ [FWrite (csv_report st') (row_of s); FFlush (csv_report st')] ∧
    written (drop (length (trace st)) (trace st')) = head ++ [row_of s] ∧
    (head = [] ∨ head = [metadata_text (headers st); dataset_text s]) ∧
    row_of s = Py.join Py.tab (row_cells s) +:+ Py.nl ∧
    length (row_cells s) = (Nat.max (length (output s)) 1 + 1)%nat ∧
    (Forall tab_free (values_of s) → Forall tab_free (warnings s) →
       columns (row_of s) = row_cells s).
Proof.
  intros HB Hn Hc.
  exists (after_item args flag s st).
  pose proof (callback_some args flag s st HB Hn Hc) as Hrun.
  set (f := csv_report (after_item args flag s st)).
  set (rot := if rotates args (nfiledone st)
              then [FClose (csv_report st); FOpen f flag] else []).
  set (hd := if (first st || rotates args (nfiledone st)) && is_w flag
             then [FWrite f (metadata_text (headers st)); FWrite f (dataset_text s)]
             else []).
  assert (trace (after_item args flag s st)
          = trace st ++ rot ++ hd ++ [FWrite f (row_of s); FFlush f]) as Htr by done.
  exists (trace st ++ rot ++ hd), (written hd).
  split; [done |]. split; [by rewrite Htr, <- !List.app_assoc |].
  split; [| split; [| split; [| split]]].
  - rewrite Htr, drop_app_length. unfold written.
    rewrite !omap_app. subst rot.
    by destruct (rotates args (nfiledone st)).
  - subst hd.
    destruct ((first st || rotates args (nfiledone st)) && is_w flag);
      [by right | by left].
  - unfold row_of, row_text, row_cells.
    rewrite <- !append_assoc, (append_assoc _ Py.tab), row_is_join.
    by destruct (values_of s).
  - unfold row_cells. rewrite length_app. simpl.
    rewrite <- (values_of_length s Hc). destruct (values_of s); simpl; lia.
  - intros Hvals Hwarn. unfold columns, row_of, row_text, row_cells.
    rewrite <- !append_assoc, chomp_line, !append_assoc.
    rewrite split_row; [by destruct (values_of s) | done |].
    by apply join_tab_free.
Qed.

End RowFacts.

(** C4 as stated fails in two ways: a record without output fields has a
    row of two columns, not one, and a record with one output field whose
    value holds a tab has a row of three columns, not two. *)
Lemma row_columns_can_differ :
  ¬ one_more_column plain_args W bare_item
      (snd (open_report plain_args W (initial ∅))) ∧
  ¬ one_more_column plain_args W tabbed_item
      (snd (open_report plain_args W (initial ∅))).
Proof.
  split.
  - intros (st' & row & Hrun & Hlast & Hlen).
    vm_compute in Hrun. injection Hrun as <-.
    vm_compute in Hlast. injection Hlast as <-.
    vm_compute in Hlen. discriminate.
  - intros (st' & row & Hrun & Hlast & Hlen).
    vm_compute in Hrun. injection Hrun as <-.
    vm_compute in Hlast. injection Hlast as <-.
    vm_compute in Hlen. discriminate.
Qed.

(** ** Headers and rows in the report files *)

Section HeaderFacts.

Context (args : Args).

Lemma headed_mono hs s items ts : headed hs items ts → headed hs (s :: items) ts.
Proof.
  intros [->|(s' & more & Hin & ->)]; [by left |].
  right. exists s', more. split; [by right | done].
Qed.

Lemma texts_rows (flag : mode) hs (items : list ItemState) (n : Z) :
  0 < n →
  ∃ more, texts_until_open (items_events args flag hs n items) = row_of <$> more.
Proof.
  revert n. induction items as [|s items IH]; intros n Hn; [by exists [] |].
  simpl. unfold item_events.
  replace (n =? 0) with false by (symmetry; apply Z.eqb_neq; lia).
  destruct (rotates args n); simpl.
  - by exists [].
  - rewrite andb_false_r. simpl.
    destruct (IH (n + 1) ltac:(lia)) as [more ->]. by exists (s :: more).
Qed.

Lemma sessions_headed hs (items : list ItemState) (n : Z) :
  0 ≤ n →
  Forall (λ ft, headed hs items ft.2) (sessions (items_events args W hs n items)).
Proof.
  revert n. induction items as [|s items IH]; intros n Hn; [constructor |].
  assert (Forall (λ ft, headed hs (s :: items) ft.2)
            (sessions (items_events args W hs (n + 1) items))) as Htail.
  { eapply Forall_impl; [apply IH; lia |]. intros ft. apply headed_mono. }
  simpl. unfold item_events.
  destruct (rotates args n); simpl.
  - rewrite orb_true_r. simpl. constructor; [| done].
    simpl. right.
    destruct (texts_rows W hs items (n + 1) ltac:(lia)) as [more ->].
    exists s, more. split; [by left | done].
  - rewrite orb_false_r. destruct (n =? 0); simpl; done.
Qed.

Lemma first_session_headed hs (items : list ItemState) :
  headed hs items (texts_until_open (items_events args W hs 0 items)).
Proof.
  destruct items as [|s items]; [by left |].
  right. simpl. unfold item_events.
  assert (rotates args 0 = false) as ->.
  { unfold rotates. by destruct (batch_arg args). }
  simpl.
  destruct (texts_rows W hs items (0 + 1) ltac:(lia)) as [more ->].
  exists s, more. split; [by left | done].
Qed.

Lemma written_append hs (items : list ItemState) (n : Z) :
  written (items_events args A hs n items) = row_of <$> items.
Proof.
  revert n. induction items as [|s items IH]; intros n; [done |].
  simpl. unfold item_events, written. rewrite !omap_app.
  fold (written (items_events args A hs (n + 1) items)). rewrite IH.
  by destruct (rotates args n).
Qed.

Lemma choose_flag_policy (env : Env) (st : state) :
  ∃ st1, choose_flag env args st
         = (Return (if append_policy env args then A else W), st1) ∧
         batch st1 = batch st ∧ nfiledone st1 = nfiledone st ∧
         first st1 = first st ∧ headers st1 = headers st.
Proof.
  unfold choose_flag, append_policy, os_sep.
  destruct (glob env (outdir args +:+ "/" +:+ "results*.tsv")) as [|x l] eqn:E;
    change (outdir args +:+ "/results*.tsv") with (outdir args +:+ "/" +:+ "results*.tsv");
    rewrite E; simpl.
  - rewrite andb_false_r. by eexists.
  - destruct (force args); simpl; by eexists.
Qed.

(** The sessions of the report files for a run that starts with fresh
    counters. *)
Lemma report_sessions (env : Env) (rs : list (option ItemState)) (st : state) :
  sound_batch args →
  batch st = 1 → nfiledone st = 0 → first st = true →
  Forall complete (omap id rs) →
  let flag := if append_policy env args then A else W in
  ∃ st1 st',
    choose_flag env args st = (Return flag, st1) ∧
    (open_report args flag ;; deliver args flag rs) st1 = (Return tt, st') ∧
    (append_policy env args = false →
       Forall (λ ft, headed (headers st) (omap id rs) ft.2)
              (sessions (drop (length (trace st1)) (trace st')))) ∧
    (append_policy env args = true →
       written (drop (length (trace st1)) (trace st')) = row_of <$> omap id rs).
Proof.
  intros HB Hb Hn Hf Hall flag.
  destruct (choose_flag_policy env st) as (st1 & Hflag & Hb1 & Hn1 & Hf1 & Hh1).
  rewrite <- Hb1 in Hb. rewrite <- Hn1 in Hn. rewrite <- Hf1 in Hf.
  destruct (open_report_fresh args flag st1 Hb Hn Hf) as [Hopen Hrep].
  destruct (deliver_items args flag (omap id rs) 0 _ HB Hrep Hall)
    as (st' & Hrun & Htr & _).
  exists st1, st'. split; [done |]. split.
  { erewrite bind_run by exact Hopen. by rewrite deliver_skips_none. }
  simpl in Htr. rewrite <- List.app_assoc in Htr. rewrite Htr, drop_app_length.
  rewrite Hh1. subst flag. split; intros Hp; rewrite Hp; simpl.
  - constructor; [apply first_session_headed | apply sessions_headed; lia].
  - apply written_append.
Qed.

End HeaderFacts.

(** ** What a computation leaves in place *)

#[export] Instance same_refl {X} (f : state → X) : Reflexive (same f).
Proof. by intros st. Qed.

#[export] Instance same_trans {X} (f : state → X) : Transitive (same f).
Proof. intros a b c H1 H2. unfold same in *. congruence. Qed.

Section Steady.

Context (R : relation state) `{!Reflexive R, !Transitive R}.

Lemma steady_ret {T} (a : T) : steady R (ret a).
Proof. intros st. simpl. reflexivity. Qed.

Lemma steady_raise {T} (e : exn) : steady R (@raise T e).
Proof. intros st. simpl. reflexivity. Qed.

Lemma steady_gets {T} (g : state → T) : steady R (gets g).
Proof. intros st. simpl. reflexivity. Qed.

Lemma steady_lift {T} (r : pyexc + T) : steady R (lift r).
Proof. destruct r; intros st; simpl; reflexivity. Qed.

Lemma steady_modify (g : state → state) : (∀ st, R st (g st)) → steady R (modify g).
Proof. intros H st. apply H. Qed.

Lemma steady_bind {T U} (m : M T) (k : T → M U) :
  steady R m → (∀ a, steady R (k a)) → steady R (bind m k).
Proof.
  intros Hm Hk st. unfold bind. specialize (Hm st).
  destruct (m st) as [[a|e] st1]; simpl in *; [| done].
  etransitivity; [exact Hm | apply Hk].
Qed.

Lemma steady_try {T} (m : M T) (h : pyexc → M T) :
  steady R m → (∀ e, steady R (h e)) → steady R (try_except m h).
Proof.
  intros Hm Hh st. unfold try_except. specialize (Hm st).
  destruct (m st) as [[a|[c|e]] st1]; simpl in *; [done | done |].
  etransitivity; [exact Hm | apply Hh].
Qed.

Lemma steady_attempt {T} (m : M T) : steady R m → steady R (attempt m).
Proof.
  intros Hm st. unfold attempt. specialize (Hm st).
  by destruct (m st) as [r st1].
Qed.

End Steady.

Create HintDb steady.

Ltac steady_step :=
  first
    [ match goal with
      | |- Reflexive _ => typeclasses eauto
      | |- Transitive _ => typeclasses eauto
      end
    | solve [auto with steady nocore]
    | apply steady_ret
    | apply steady_raise
    | apply steady_gets
    | apply steady_lift
    | apply steady_bind
    | apply steady_try
    | apply steady_attempt
    | apply steady_modify; intros [? ? ? ? ? ? ? ? ?];
      first [reflexivity | by split]
    | match goal with
      | |- steady _ (if ?b then _ else _) => destruct b
      | |- steady _ (match ?x with _ => _ end) => destruct x
      end
    | progress intros ].

Ltac frame := repeat steady_step.

Lemma run_steps_dirs lock sd q s : keeps dirs (run_steps lock sd q s).
Proof.
  revert s. induction q as [|[p a] q IH]; intros s; simpl; [frame |].
  unfold dict_set, dict_at, tell. frame.
Qed.
#[local] Hint Resolve run_steps_dirs : steady.

Lemma load_and_run_dirs env fname args lconfig q lock sd :
  keeps dirs (load_and_run env fname args lconfig q lock sd).
Proof. unfold load_and_run, tell. frame. Qed.
#[local] Hint Resolve load_and_run_dirs : steady.


(** ** The worker and the output directory *)

Section WorkerFacts.

Context (env : Env).

Lemma isdir_run d st :
  isdir d st = (Return (bool_decide (no_final_slash d ∈ dirs st)), st).
Proof. done. Qed.

Lemma under_refl d : under d d = true.
Proof. unfold under. by rewrite String.eqb_refl. Qed.

Lemma rmtree_gone d st : no_final_slash d ∉ dirs (snd (rmtree d st)).
Proof.
  unfold rmtree. run_monad. rewrite elem_of_filter.
  intros [H _]. apply H. rewrite under_refl. exact I.
Qed.

Lemma worker_absent i n fname args lconfig q lock sd st :
  no_final_slash (fname_outdir args fname) ∉ dirs st →
  worker env i n fname args lconfig q lock sd st
  = process_item env i n fname args lconfig q lock sd st.
Proof.
  intros H. unfold worker.
  erewrite bind_run by apply isdir_run.
  rewrite bool_decide_false by done. erewrite bind_run by reflexivity. reflexivity.
Qed.

Lemma worker_forced i n fname args lconfig q lock sd st :
  no_final_slash (fname_outdir args fname) ∈ dirs st → force args = true →
  worker env i n fname args lconfig q lock sd st
  = process_item env i n fname args lconfig q lock sd
      (snd (rmtree (fname_outdir args fname) st)).
Proof.
  intros H Hf. unfold worker.
  erewrite bind_run by apply isdir_run.
  rewrite bool_decide_true, Hf by done. erewrite bind_run by reflexivity. reflexivity.
Qed.

Lemma worker_skipped i n fname args lconfig q lock sd st :
  no_final_slash (fname_outdir args fname) ∈ dirs st → force args = false →
  worker env i n fname args lconfig q lock sd st
  = (Return None, emit (Log WARNING (skip_message fname)) st).
Proof.
  intros H Hf. unfold worker.
  erewrite bind_run by apply isdir_run.
  rewrite bool_decide_true, Hf by done. erewrite bind_run by reflexivity. reflexivity.
Qed.

Lemma make_dir_safe_there d st :
  no_final_slash d ∈ dirs (snd (make_dir_safe d st)).
Proof.
  unfold make_dir_safe, makedirs, isdir. run_monad.
  destruct (bool_decide (no_final_slash d ∈ dirs st)) eqn:E; simpl.
  - by apply bool_decide_eq_true in E.
  - set_solver.
Qed.

Lemma process_item_there i n fname args lconfig q lock sd st :
  no_final_slash (fname_outdir args fname)
  ∈ dirs (snd (process_item env i n fname args lconfig q lock sd st)).
Proof.
  unfold process_item. unfold bind at 1.
  pose proof (make_dir_safe_there (fname_outdir args fname) st) as H.
  destruct (make_dir_safe (fname_outdir args fname) st) as [[[]|e] st1]; [| done].
  simpl in H.
  match goal with |- context [bind ?m ?k st1] =>
    assert (keeps dirs (bind m k)) as Hk end.
  { unfold logging, tell. frame. }
  by rewrite (Hk st1).
Qed.

Lemma worker_leaves_directory i n fname args lconfig q lock sd st :
  no_final_slash (fname_outdir args fname)
  ∈ dirs (snd (worker env i n fname args lconfig q lock sd st)).
Proof.
  destruct (decide (no_final_slash (fname_outdir args fname) ∈ dirs st)) as [Hin|Hout].
  - destruct (force args) eqn:Hf.
    + rewrite worker_forced by done. apply process_item_there.
    + by rewrite worker_skipped.
  - rewrite worker_absent by done. apply process_item_there.
Qed.

(** C3. When the output directory of the slide is there at the start of the
    task: without force the worker logs a warning and returns nothing, the
    state is otherwise unchanged (neither the loader nor a step is called),
    and the callback writes nothing for it; with force the directory is
    removed first, then made again, and the slide is processed as a slide
    never seen before. After any run of the worker on a slide, a run without
    force on the same slide is skipped. *)
Theorem existing_output_directory (i n : nat) (fname : string) (args : Args)
    (lconfig : config) (q : list (capability * nat)) (lock sd : pval) (st : state) :
  no_final_slash (fname_outdir args fname) ∈ dirs st →
  let d := fname_outdir args fname in
  (force args = false →
     worker env i n fname args lconfig q lock sd st
     = (Return None, emit (Log WARNING (skip_message fname)) st) ∧
     (∀ flag st', callback args flag None st' = (Return tt, st'))) ∧
  (force args = true →
     let st1 := snd (rmtree d st) in
     trace st1 = trace st ++ [Rmtree d] ∧
     (no_final_slash d ∉ dirs st1) ∧
     worker env i n fname args lconfig q lock sd st
     = process_item env i n fname args lconfig q lock sd st1 ∧
     ∃ st2, make_dir_safe d st1 = (Return tt, st2) ∧
            trace st2 = trace st1 ++ [Makedirs d] ∧
            no_final_slash d ∈ dirs st2) ∧
  (∀ r st1 i' n' lconfig' q',
     worker env i n fname args lconfig q lock sd st = (r, st1) →
     worker env i' n' fname (with_force false args) lconfig' q' lock sd st1
     = (Return None, emit (Log WARNING (skip_message fname)) st1)).
Proof.
  intros Hin d. split; [| split].
  - intros Hf. split; [by apply worker_skipped | done].
  - intros Hf st1. split; [done |].
    pose proof (rmtree_gone d st) as Hgone. split; [done |].
    split; [by apply worker_forced |].
    pose proof (make_dir_safe_there d st1) as Hthere.
    unfold make_dir_safe, makedirs, isdir in *. revert Hthere. run_monad.
    rewrite bool_decide_false by done. simpl. intros Hthere. by eexists.
  - intros r st1 i' n' lconfig' q' Hrun.
    apply worker_skipped; [| done].
    pose proof (worker_leaves_directory i n fname args lconfig q lock sd st) as H.
    by rewrite Hrun in H.
Qed.
End WorkerFacts.

(** ** The worker and the parameter dictionaries *)

#[export] Instance params_but_proxies_refl : Reflexive params_but_proxies.
Proof. by intros st. Qed.

#[export] Instance params_but_proxies_trans : Transitive params_but_proxies.
Proof.
  intros a b c [L1 H1] [L2 H2]. split; [congruence |].
  intros x k Hk1 Hk2. by rewrite H2, H1.
Qed.

Lemma dict_set_proxies a k v :
  k = "lock" ∨ k = "shared_dict" → steady params_but_proxies (dict_set a k v).
Proof.
  intros Hk st. unfold dict_set. run_monad. split; simpl.
  - by rewrite length_alter.
  - intros a' k' Hk1 Hk2.
    destruct (decide (a = a')) as [<-|Hne].
    + rewrite list_lookup_alter_eq. destruct (heap st !! a) as [d|]; [| done].
      simpl. rewrite lookup_insert_ne; [done | destruct Hk; congruence].
    + by rewrite list_lookup_alter_ne.
Qed.

Lemma emit_proxies e : steady params_but_proxies (tell e).
Proof. intros st. by destruct st. Qed.
#[local] Hint Resolve emit_proxies : steady.

Lemma run_steps_proxies lock sd q s :
  steady params_but_proxies (run_steps lock sd q s).
Proof.
  revert s. induction q as [|[p a] q IH]; intros s; simpl; [frame |].
  apply steady_bind; [typeclasses eauto | apply dict_set_proxies; by left |].
  intros _. apply steady_bind; [typeclasses eauto | apply dict_set_proxies; by right |].
  intros _. unfold dict_at. frame.
Qed.
#[local] Hint Resolve run_steps_proxies : steady.

Lemma worker_proxies env i n fname args lconfig q lock sd :
  steady params_but_proxies (worker env i n fname args lconfig q lock sd).
Proof.
  unfold worker, isdir, rmtree, logging, make_dir_safe, makedirs, isdir, load_and_run.
  frame.
Qed.

#[export] Instance adds_events_refl P addrs : Reflexive (adds_events P addrs).
Proof. intros st _. split; [done |]. exists []. by rewrite app_nil_r. Qed.

#[export] Instance adds_events_trans P addrs : Transitive (adds_events P addrs).
Proof.
  intros a b c H1 H2 Hv. destruct (H1 Hv) as (L1 & n1 & T1 & F1).
  destruct H2 as (L2 & n2 & T2 & F2); [by rewrite L1 |].
  split; [congruence |]. exists (n1 ++ n2).
  split; [by rewrite T2, T1, <- List.app_assoc | by apply Forall_app].
Qed.

Lemma bind_inv {T U} (m : M T) (k : T → M U) st b st' :
  bind m k st = (Return b, st') →
  ∃ a st1, m st = (Return a, st1) ∧ k a st1 = (Return b, st').
Proof.
  unfold bind. destruct (m st) as [[a|e] st1]; [| done]. by exists a, st1.
Qed.

Lemma tell_adds P addrs e : P e → steady (adds_events P addrs) (tell e).
Proof.
  intros He st _. destruct st. split; [done |]. exists [e]. split; [done |].
  by constructor.
Qed.

Lemma heap_only_adds P addrs (g : list params → list params) :
  (∀ h, length (g h) = length h) →
  steady (adds_events P addrs) (modify (set_heap g)).
Proof.
  intros Hg st _. destruct st. simpl. split; [apply Hg |]. exists [].
  by rewrite app_nil_r.
Qed.

Lemma dirs_only_adds P addrs (g : gset string → gset string) :
  steady (adds_events P addrs) (modify (set_dirs g)).
Proof.
  intros st _. destruct st. simpl. split; [done |]. exists [].
  by rewrite app_nil_r.
Qed.

Lemma call_step_adds lock sd addrs (p : capability) (a : nat) :
  a ∈ addrs →
  steady (adds_events (proxies_given lock sd) addrs)
    (dict_set a "lock" lock ;; dict_set a "shared_dict" sd ;;
     do process_params <- dict_at a; tell (Call (cap_name p) process_params)).
Proof.
  intros Ha st Hv.
  assert (a < length (heap st))%nat as Hlt.
  { rewrite Forall_forall in Hv. by apply Hv. }
  destruct (lookup_lt_is_Some_2 _ _ Hlt) as [d Hd].
  unfold dict_set, dict_at. run_monad.
  rewrite !length_alter. split; [done |].
  eexists [_]. split; [done |]. constructor; [| done]. simpl.
  rewrite !list_lookup_alter_eq, Hd. simpl.
  split; [by rewrite lookup_insert_ne, lookup_insert_eq | by rewrite lookup_insert_eq].
Qed.

Lemma run_steps_adds lock sd addrs q s :
  Forall (λ a, a ∈ addrs) (snd <$> q) →
  steady (adds_events (proxies_given lock sd) addrs) (run_steps lock sd q s).
Proof.
  revert s. induction q as [|[p a] q IH]; intros s Hq; simpl; [frame |].
  inversion Hq as [|? ? Ha Hq']; subst.
  intros st.
  pose proof (call_step_adds lock sd addrs p a Ha st) as H1.
  revert H1. unfold bind at 1 2 3 4 5 6 7 8.
  unfold dict_set, dict_at, tell. run_monad.
  intros H1.
  destruct (cap_run p s _) as [e|s']; simpl; [exact H1 |].
  etransitivity; [exact H1 | by apply IH].
Qed.

Lemma worker_adds env i n fname args lconfig q lock sd :
  steady (adds_events (proxies_given lock sd) (snd <$> q))
         (worker env i n fname args lconfig q lock sd).
Proof.
  unfold worker, isdir, rmtree, logging, make_dir_safe, makedirs, isdir, load_and_run.
  assert (∀ s, steady (adds_events (proxies_given lock sd) (snd <$> q))
                 (run_steps lock sd q s)) as Hrun.
  { intros s. apply run_steps_adds. by apply Forall_forall. }
  repeat first
    [ apply tell_adds; exact I
    | apply dirs_only_adds
    | apply Hrun
    | steady_step ].
Qed.

Lemma load_steps_heap env in_main lconfig steps q0 st q st' :
  load_steps env in_main lconfig steps q0 st = (Return q, st') →
  heap st' = heap st ++ (section_params lconfig <$> steps) ∧
  snd <$> q = (snd <$> q0) ++ seq (length (heap st)) (length steps).
Proof.
  revert q0 st. induction steps as [|process steps IH]; intros q0 st; simpl.
  - intros [= <- <-]. by rewrite !app_nil_r.
  - destruct (Py.split "." process) as [|mod_name [|func_name [|? ?]]]; try done.
    intros H.
    apply bind_inv in H as ([] & st1 & H1 & H).
    apply bind_inv in H as (func & st2 & H2 & H).
    apply bind_inv in H as (a & st3 & H3 & H).
    apply IH in H as [Hh Hq].
    assert (heap st1 = heap st) as E1.
    { destruct in_main; [| by injection H1 as <-].
      revert H1. unfold logging, tell. run_monad. by intros [= <-]. }
    assert (st2 = st1) as ->.
    { destruct (lookup_func env mod_name _); [done | by injection H2 as _ <-]. }
    revert H3. unfold new_dict. run_monad. intros [= <- <-].
    simpl in Hh, Hq. rewrite E1 in Hh, Hq.
    fold (section_params lconfig process) in Hh.
    split.
    + by rewrite Hh, <- List.app_assoc.
    + rewrite Hq, fmap_app, length_app, <- List.app_assoc. simpl.
      by rewrite Nat.add_1_r.
Qed.

Lemma load_pipeline_heap env in_main lconfig st q st' :
  load_pipeline env in_main lconfig st = (Return q, st') →
  ∃ text, config_get lconfig "pipeline" "steps" = inr text ∧
    heap st' = heap st ++ (section_params lconfig <$> Py.splitlines text) ∧
    snd <$> q = seq (length (heap st)) (length (Py.splitlines text)).
Proof.
  unfold load_pipeline. intros H.
  apply bind_inv in H as ([] & st1 & H1 & H).
  apply bind_inv in H as (text & st2 & H2 & H).
  apply bind_inv in H as ([] & st3 & H3 & H).
  apply load_steps_heap in H as [Hh Hq].
  assert (heap st1 = heap st) as E1.
  { destruct in_main; [| by injection H1 as <-].
    revert H1. unfold logging, tell. run_monad. by intros [= <-]. }
  destruct (config_get lconfig "pipeline" "steps") as [e|text'] eqn:E; [done |].
  injection H2 as -> <-.
  revert H3. unfold append_header. run_monad. intros [= <-].
  simpl in Hh, Hq. exists text. rewrite E1 in Hh, Hq. done.
Qed.

Section ParamFacts.

Context (env : Env).

(** C9, amended. [load_pipeline] gives every configured step a dictionary of
    its own, filled from the step's section of the configuration. Afterwards
    the worker changes these dictionaries in one way only: before it calls a
    step it sets the keys "lock" and "shared_dict" of that step's dictionary
    to the shared lock and the shared map. No dictionary is added or
    removed, every other key reads as it did when the pipeline was loaded,
    and every step is called with the two proxies in its parameters. *)
Theorem parameters_after_loading (in_main : bool) (lconfig : config)
    (i n : nat) (fname : string) (args : Args) (lock sd : pval) (st0 : state) :
  ∀ q st, load_pipeline env in_main lconfig st0 = (Return q, st) →
    (∃ text, config_get lconfig "pipeline" "steps" = inr text ∧
       heap st = heap st0 ++ (section_params lconfig <$> Py.splitlines text) ∧
       snd <$> q = seq (length (heap st0)) (length (Py.splitlines text))) ∧
    let st' := snd (worker env i n fname args lconfig q lock sd st) in
    length (heap st') = length (heap st) ∧
    (∀ (a : nat) (k : string), k ≠ "lock" → k ≠ "shared_dict" →
       (heap st' !! a) ≫= (λ d, d !! k) = (heap st !! a) ≫= (λ d, d !! k)) ∧
    ∃ new, trace st' = trace st ++ new ∧ Forall (proxies_given lock sd) new.
Proof.
  intros q st Hload.
  pose proof (load_pipeline_heap _ _ _ _ _ _ Hload) as (text & Hc & Hh & Hq).
  split; [by exists text |].
  intros st'.
  destruct (worker_proxies env i n fname args lconfig q lock sd st) as [Hlen Hkeys].
  split; [done |]. split; [done |].
  apply (worker_adds env i n fname args lconfig q lock sd st).
  rewrite Hq, Hh, length_app, length_fmap.
  apply Forall_forall. intros a Ha%elem_of_seq. lia.
Qed.
End ParamFacts.

Lemma worker_sets_proxies :
  ¬ parameters_read_only (Demo.system [] "" "" Unbounded) Demo.settings
      "/slides/Y.svs" (Demo.arguments ["Y.svs"] "" Unbounded).
Proof.
  intros H.
  destruct (load_pipeline (Demo.system [] "" "" Unbounded) true Demo.settings (initial ∅))
    as [[q|e] st] eqn:E; [| by vm_compute in E].
  specialize (H q st E).
  vm_compute in E. injection E as <- <-.
  apply (f_equal (λ h, h !! 1%nat ≫= (λ d : params, d !! "lock"))) in H.
  vm_compute in H. discriminate.
Qed.


(** ** A run without input *)

Lemma returns_ret {T} (a : T) : returns (ret a).
Proof. intros st. by eexists _, _. Qed.

Lemma returns_gets {T} (g : state → T) : returns (gets g).
Proof. intros st. by eexists _, _. Qed.

Lemma returns_modify (g : state → state) : returns (modify g).
Proof. intros st. by eexists _, _. Qed.

Lemma returns_bind {T U} (m : M T) (k : T → M U) :
  returns m → (∀ a, returns (k a)) → returns (bind m k).
Proof.
  intros Hm Hk st. destruct (Hm st) as (a & st1 & H).
  destruct (Hk a st1) as (b & st2 & H'). exists b, st2.
  by erewrite bind_run.
Qed.

Ltac returns_step :=
  first
    [ apply returns_ret | apply returns_gets | apply returns_modify
    | apply returns_bind
    | match goal with
      | |- returns (if ?b then _ else _) => destruct b
      | |- returns (match ?x with _ => _ end) => destruct x
      end
    | progress intros ].

Lemma log_failed_returns l : returns (log_failed l).
Proof.
  induction l as [|[f e] l IH]; simpl; [apply returns_ret |].
  unfold logging, tell. repeat returns_step. apply IH.
Qed.

Lemma finish_returns env args : returns (finish env args).
Proof.
  unfold finish, fclose, logging, tell, make_dir_safe, makedirs, isdir.
  repeat first [apply log_failed_returns | returns_step].
Qed.

Lemma tell_keeps_tasks e :
  is_task_event e = false → keeps (λ st, task_events (trace st)) (tell e).
Proof.
  intros He st. destruct st. unfold same, task_events. simpl.
  rewrite omap_app. simpl. rewrite He. by rewrite app_nil_r.
Qed.

Ltac quiet := repeat first [apply tell_keeps_tasks; reflexivity | steady_step].

Lemma log_failed_quiet l : keeps (λ st, task_events (trace st)) (log_failed l).
Proof.
  induction l as [|[f e] l IH]; simpl; [quiet |].
  unfold logging. quiet.
Qed.

Lemma finish_quiet env args : keeps (λ st, task_events (trace st)) (finish env args).
Proof.
  unfold finish, fclose, logging, make_dir_safe, makedirs, isdir.
  repeat first [apply log_failed_quiet | apply tell_keeps_tasks; reflexivity | steady_step].
Qed.

Lemma load_steps_quiet env in_main lconfig steps q :
  keeps (λ st, task_events (trace st)) (load_steps env in_main lconfig steps q).
Proof.
  revert q. induction steps as [|process steps IH]; intros q; simpl; [quiet |].
  unfold logging, new_dict. quiet.
Qed.

Lemma startup_quiet env argv : keeps (λ st, task_events (trace st)) (startup env argv).
Proof.
  unfold startup, new_pool, append_header, logging, make_dir_safe, makedirs, isdir,
    sys_exit, load_pipeline.
  repeat first [apply load_steps_quiet | apply tell_keeps_tasks; reflexivity | steady_step].
Qed.

Lemma choose_flag_quiet env args : keeps (λ st, task_events (trace st)) (choose_flag env args).
Proof. unfold choose_flag, logging. quiet. Qed.

Lemma open_report_quiet args flag : keeps (λ st, task_events (trace st)) (open_report args flag).
Proof. unfold open_report, fopen. quiet. Qed.

Lemma enumerate_quiet env args : keeps (λ st, task_events (trace st)) (enumerate env args).
Proof. unfold enumerate, logging, sys_exit. quiet. Qed.

Lemma pool_loop_no_tasks env args flag lconfig q lock sd order ready next st :
  pool_loop env args flag lconfig q lock sd [] order ready next st = (Return tt, st).
Proof.
  revert ready next. induction order as [|i order IH]; intros ready next; simpl.
  - done.
  - apply IH.
Qed.

Section InputFacts.

Context (env : Env).

(** C7, amended. With no argument at all (only the program name) the
    program prints the usage text and exits with status 1 before anything
    else. When the start-up succeeds and no input pattern is given, it exits
    with status 1 and no task has run. When a pattern is given and names no
    file (a glob without a match, a manifest of comments only), the program
    does not exit with an error: it runs to its normal end, and no task has
    run. *)
Theorem no_input_exits (argv : list string) (order : list nat) (st : state) :
  (length argv = 1%nat →
     ∃ st', main env argv order st = (Raise (SystemExit 1), st') ∧
            trace st' = trace st ++ [PrintHelp]) ∧
  (∀ args lconfig q st1,
     startup env argv st = (Return (args, lconfig, q), st1) →
     (input_pattern args = [] →
        ∃ st', main env argv order st = (Raise (SystemExit 1), st') ∧
               task_events (trace st') = task_events (trace st)) ∧
     (∀ pattern, input_pattern args = [pattern] →
        (∀ st2, enumerate env args st2 = (Return [], st2)) →
        ∃ st', main env argv order st = (Return tt, st') ∧
               task_events (trace st') = task_events (trace st))).
Proof.
  split.
  - intros Hlen. unfold main, startup. rewrite Hlen. simpl.
    unfold append_header. run_monad. by eexists.
  - intros args lconfig q st1 Hstart.
    pose proof (startup_quiet env argv st) as Hq0. rewrite Hstart in Hq0.
    unfold same in Hq0. simpl in Hq0.
    unfold main. erewrite bind_run by exact Hstart. cbv beta iota.
    pose proof (choose_flag_quiet env args st1) as Hq1.
    destruct (choose_flag_policy args env st1) as (st2 & Hflag & _).
    rewrite Hflag in Hq1. unfold same in Hq1. simpl in Hq1.
    erewrite bind_run by exact Hflag.
    set (flag := if append_policy env args then A else W).
    pose proof (open_report_quiet args flag st2) as Hq2.
    assert (∃ st3, open_report args flag st2 = (Return tt, st3)) as [st3 Hopen].
    { unfold open_report, fopen. run_monad. by eexists. }
    rewrite Hopen in Hq2. unfold same in Hq2. simpl in Hq2.
    erewrite bind_run by exact Hopen.
    split.
    + intros Hnone. unfold enumerate. rewrite Hnone.
      run_monad. eexists. split; [reflexivity |]. simpl.
      unfold task_events in *. rewrite omap_app. simpl. rewrite app_nil_r. congruence.
    + intros pattern Hpat Hempty.
      erewrite bind_run by apply Hempty.
      unfold logging at 1. unfold tell at 1.
      erewrite bind_run by reflexivity.
      unfold dispatched. simpl fmap.
      erewrite bind_run by apply pool_loop_no_tasks.
      destruct (finish_returns env args (emit (Log INFO
        ("Number of files detected by pattern:" +:+ Py.tab +:+
         Py.str_int (Z.of_nat (length (@nil string))))) st3)) as ([] & st' & Hfin).
      exists st'. split; [exact Hfin |].
      pose proof (finish_quiet env args (emit (Log INFO
        ("Number of files detected by pattern:" +:+ Py.tab +:+
         Py.str_int (Z.of_nat (length (@nil string))))) st3)) as Hq3.
      rewrite Hfin in Hq3. unfold same in Hq3. simpl in Hq3.
      rewrite Hq3. unfold task_events in *. rewrite omap_app. simpl.
      rewrite app_nil_r. congruence.
Qed.

End InputFacts.

Lemma empty_glob_is_not_fatal :
  ¬ empty_input_exits (Demo.system [] "" "" Unbounded) ["histoqc"; "*.svs"] [].
Proof.
  intros H.
  pose (r := startup (Demo.system [] "" "" Unbounded) ["histoqc"; "*.svs"] (initial ∅)).
  pose (q := match r.1 with Return (_, _, q) => q | Raise _ => [] end).
  assert (startup (Demo.system [] "" "" Unbounded) ["histoqc"; "*.svs"] (initial ∅)
          = (Return (Demo.arguments ["*.svs"] "" Unbounded, Demo.settings, q), r.2)) as E.
  { vm_compute. reflexivity. }
  specialize (H _ _ _ _ E).
  assert (∀ st, enumerate (Demo.system [] "" "" Unbounded)
                  (Demo.arguments ["*.svs"] "" Unbounded) st = (Return [], st)) as Hnone.
  { intros st. reflexivity. }
  specialize (H Hnone). vm_compute in H. discriminate.
Qed.


(** ** The files given to the workers *)

Section DispatchFacts.

Context (env : Env).

(** C6, amended. Provided [os.path.realpath] returns absolute paths: the
    list of files is built without changing the state; the paths given to
    the workers are the [realpath] of each file, in the same order and one
    for each entry (nothing is removed, duplicates stay), and all of them are
    absolute. The base-path prefix is applied to the entries of a manifest
    and not to the paths of an explicit list: the files are the paths of the
    command line as they are when there are several, and the entries of the
    manifest, each behind the base-path prefix, when the single input ends
    in "tsv"; otherwise they are what the glob finds. *)
Theorem dispatched_paths (args : Args) (files : list string) (st st' : state) :
  (∀ p, is_absolute (realpath env p) = true) →
  enumerate env args st = (Return files, st') →
  st' = st ∧
  dispatched env files = realpath env <$> files ∧
  length (dispatched env files) = length files ∧
  Forall (λ p, is_absolute p = true) (dispatched env files) ∧
  files = match input_pattern args with
          | [pattern] =>
              if Py.endswith pattern "tsv"
              then flat_map (manifest_entry (base_prefix args))
                            (Py.readlines (default "" (read_text env pattern)))
              else glob env (basepath args +:+ pattern)
          | given => given
          end.
Proof.
  intros Habs Hrun.
  assert (st' = st ∧
          files = match input_pattern args with
          | [pattern] =>
              if Py.endswith pattern "tsv"
              then flat_map (manifest_entry (base_prefix args))
                            (Py.readlines (default "" (read_text env pattern)))
              else glob env (basepath args +:+ pattern)
          | given => given
          end) as [-> Hfiles].
  { revert Hrun. unfold enumerate. rewrite base_prefix_eq.
    destruct (input_pattern args) as [|pattern [|p2 rest]].
    - by run_monad.
    - destruct (Py.endswith pattern "tsv").
      + destruct (read_text env pattern) as [text|]; [| done].
        intros [= <- <-]. by rewrite manifest_loop_spec.
      + by intros [= <- <-].
    - by intros [= <- <-]. }
  split; [done |]. split; [done |].
  split; [apply length_fmap |]. split; [| done].
  unfold dispatched. apply Forall_fmap, Forall_forall. intros p _. apply Habs.
Qed.

End DispatchFacts.

(** C6 as stated fails in two ways on an explicit list: with a.svs given
    twice and the base path /data, the workers get the same path twice, and
    the relative entry a.svs does not carry the base-path prefix. *)
Lemma explicit_list_taken_as_given :
  ¬ deduplicated (Demo.system [] "" "/data" Unbounded)
                 (Demo.arguments ["a.svs"; "a.svs"] "/data" Unbounded) ∧
  ¬ prefixed_when_relative (Demo.system [] "" "/data" Unbounded)
                           (Demo.arguments ["a.svs"; "a.svs"] "/data" Unbounded).
Proof.
  split.
  - intros H.
    specialize (H ["a.svs"; "a.svs"] (initial ∅) (initial ∅) eq_refl).
    vm_compute in H. inversion H as [|? ? Hnot _]; subst.
    apply Hnot. by left.
  - intros H.
    specialize (H ["a.svs"; "a.svs"] (initial ∅) (initial ∅) eq_refl).
    inversion H as [|? ? Hfirst _]; subst.
    specialize (Hfirst eq_refl). vm_compute in Hfirst. discriminate.
Qed.

(** C1, at the failing input. Two slides, X.svs and Y.svs, one worker; the
    second step raises on X.svs. The exception, with the slide and the code
    object added to its arguments, is raised again in [main] by the [get] of
    the first result and ends the program: nothing is recorded in [failed],
    no row is written, the slide Y.svs is never loaded and the report file
    is never closed. *)
Theorem fault_reaches_main :
  ∃ st',
    main (Demo.system [] "" "" Unbounded) ["histoqc"; "X.svs"; "Y.svs"] [0; 1]%nat
         (initial ∅)
    = (Raise (Exception (add_args Demo.fault ["/slides/X.svs"; exc_code Demo.fault])), st') ∧
    failed st' = [] ∧
    written (trace st') = [] ∧
    task_events (trace st')
    = [Load "/slides/X.svs" "out/X.svs" ∅;
       Call "getBasicStats" (<["shared_dict" := PSharedDict]>
                               (<["lock" := PLock]> {[ "image_work_size" := PStr "1.25x" ]}));
       Call "getContrast" (<["shared_dict" := PSharedDict]> (<["lock" := PLock]> ∅))] ∧
    Forall (λ e, ∀ f, e ≠ FClose f) (trace st').
Proof.
  eexists. split; [vm_compute; reflexivity |].
  split; [reflexivity |]. split; [reflexivity |]. split; [vm_compute; reflexivity |].
  repeat constructor; done.
Qed.

(** ** The theorems at work on the demonstration installation *)

Lemma manifest_lines_to_entries_witness :
  enumerate (Demo.system [] Demo.listing "/data" Unbounded)
            (Demo.arguments ["list.tsv"] "/data" Unbounded) (initial ∅)
  = (Return ["/data/A.svs"; "/data/B.svs"], initial ∅).
Proof.
  apply (manifest_lines_to_entries
           (Demo.system [] Demo.listing "/data" Unbounded)
           (Demo.arguments ["list.tsv"] "/data" Unbounded)
           "list.tsv" Demo.listing (initial ∅)); reflexivity.
Defined.

(** C8 as stated fails on a line that begins with a tab: its first
    tab-separated column is empty, yet the entry is the column after the
    tab, since the program strips the line before it splits it. *)
Lemma leading_tab_is_stripped :
  ¬ manifest_by_first_column
      (Demo.system [] (Py.tab +:+ "D.svs" +:+ Py.tab +:+ "x" +:+ Py.nl) "" Unbounded)
      (Demo.arguments ["list.tsv"] "" Unbounded).
Proof.
  intros H.
  specialize (H "list.tsv" (Py.tab +:+ "D.svs" +:+ Py.tab +:+ "x" +:+ Py.nl) (initial ∅)
                eq_refl eq_refl eq_refl).
  vm_compute in H. discriminate.
Qed.

Lemma demo_slide_complete (fname : string) : complete (Demo.slide fname).
Proof.
  repeat constructor; eexists; vm_compute; reflexivity.
Qed.

Lemma three_results_complete : Forall complete (omap id Demo.three_results).
Proof.
  repeat (apply List.Forall_cons; [apply demo_slide_complete |]).
  apply List.Forall_nil.
Qed.

Lemma skipped_result_is_ignored_witness :
  nfiledone (snd (deliver (Demo.arguments [] "" (Bounded 2)) W Demo.three_results (initial ∅)))
  = 3.
Proof.
  apply (skipped_result_is_ignored (Demo.arguments [] "" (Bounded 2)) W
           Demo.three_results (initial ∅)).
  vm_compute. reflexivity.
Defined.

Lemma rows_land_by_counter_witness :
  FWrite "out/results_2.tsv" (row_of (Demo.slide "/slides/C.svs"))
  ∈ trace (snd ((open_report (Demo.arguments [] "" (Bounded 2)) W ;;
                 deliver (Demo.arguments [] "" (Bounded 2)) W Demo.three_results)
                (initial ∅))).
Proof.
  destruct (rows_land_by_counter (Demo.arguments [] "" (Bounded 2)) W 2
              Demo.three_results (initial ∅) eq_refl ltac:(lia) eq_refl eq_refl eq_refl
              three_results_complete)
    as (st' & Hrun & _ & Hrow & _).
  rewrite Hrun.
  exact (Hrow 3%nat (Demo.slide "/slides/C.svs") ltac:(lia) eq_refl).
Defined.

Lemma demo_slide_tab_free (fname : string) :
  tab_free fname → Forall tab_free (values_of (Demo.slide fname)).
Proof.
  intros H. change (values_of (Demo.slide fname)) with [fname; "1"].
  repeat (apply List.Forall_cons; [done |]). apply List.Forall_nil.
Qed.

Lemma row_columns_witness :
  row_of (Demo.slide "/slides/A.svs")
  = Py.join Py.tab ["/slides/A.svs"; "1"; "w1|w2"] +:+ Py.nl ∧
  columns (row_of (Demo.slide "/slides/A.svs")) = ["/slides/A.svs"; "1"; "w1|w2"].
Proof.
  destruct (row_columns (Demo.arguments [] "" Unbounded) W
              (Demo.slide "/slides/A.svs") (initial ∅) I ltac:(simpl; lia)
              (demo_slide_complete _))
    as (st' & pre & head & _ & _ & _ & _ & Hrow & _ & Hcols).
  split; [exact Hrow |].
  apply Hcols.
  - apply (demo_slide_tab_free "/slides/A.svs"). reflexivity.
  - repeat constructor.
Defined.

Lemma existing_output_directory_witness :
  worker (Demo.system [] "" "" Unbounded) 0 1 "/slides/A.svs"
         (Demo.arguments ["A.svs"] "" Unbounded) Demo.settings [] PLock PSharedDict
         (initial {["out/A.svs"]})
  = (Return None,
     emit (Log WARNING (skip_message "/slides/A.svs")) (initial {["out/A.svs"]})).
Proof.
  assert (no_final_slash (fname_outdir (Demo.arguments ["A.svs"] "" Unbounded)
                                        "/slides/A.svs")
          ∈ dirs (initial {["out/A.svs"]})) as Hthere.
  { vm_compute. reflexivity. }
  exact (proj1 (proj1 (existing_output_directory (Demo.system [] "" "" Unbounded) 0 1
                         "/slides/A.svs" (Demo.arguments ["A.svs"] "" Unbounded)
                         Demo.settings [] PLock PSharedDict (initial {["out/A.svs"]})
                         Hthere) eq_refl)).
Defined.

Lemma parameters_after_loading_witness :
  ∃ q st,
    load_pipeline (Demo.system [] "" "" Unbounded) true Demo.settings (initial ∅)
    = (Return q, st) ∧
    length (heap (snd (worker (Demo.system [] "" "" Unbounded) 0 1 "/slides/Y.svs"
                         (Demo.arguments ["Y.svs"] "" Unbounded) Demo.settings q
                         PLock PSharedDict st)))
    = length (heap st).
Proof.
  destruct (load_pipeline (Demo.system [] "" "" Unbounded) true Demo.settings (initial ∅))
    as [[q|e] st] eqn:E; [| vm_compute in E; discriminate].
  exists q, st. split; [reflexivity |].
  exact (proj1 (proj2 (parameters_after_loading (Demo.system [] "" "" Unbounded) true
                         Demo.settings 0 1 "/slides/Y.svs"
                         (Demo.arguments ["Y.svs"] "" Unbounded) PLock PSharedDict
                         (initial ∅) q st E))).
Defined.

Lemma no_input_exits_witness :
  ∃ st',
    main (Demo.system [] "" "" Unbounded) ["histoqc"] [] (initial ∅)
    = (Raise (SystemExit 1), st') ∧
    trace st' = trace (initial ∅) ++ [PrintHelp].
Proof.
  exact (proj1 (no_input_exits (Demo.system [] "" "" Unbounded) ["histoqc"] []
                  (initial ∅)) eq_refl).
Defined.

Lemma demo_realpath_absolute (p : string) :
  is_absolute (realpath (Demo.system [] "" "" Unbounded) p) = true.
Proof.
  unfold is_absolute. simpl.
  destruct (String.prefix "/" p) eqn:E; [exact E | reflexivity].
Qed.

Lemma dispatched_paths_witness :
  Forall (λ p, is_absolute p = true)
         (dispatched (Demo.system [] "" "" Unbounded) ["a.svs"; "/b.svs"]).
Proof.
  exact (proj1 (proj2 (proj2 (proj2
    (dispatched_paths (Demo.system [] "" "" Unbounded)
       (Demo.arguments ["a.svs"; "/b.svs"] "" Unbounded) ["a.svs"; "/b.svs"]
       (initial ∅) (initial ∅) demo_realpath_absolute eq_refl))))).
Defined.

(** ** The report in a run of [main] *)

Lemma load_steps_counters env in_main lconfig steps q :
  keeps (λ st, (counters st, headers st)) (load_steps env in_main lconfig steps q).
Proof.
  revert q. induction steps as [|process steps IH]; intros q; simpl; [frame |].
  unfold logging, tell, new_dict. frame.
Qed.

Lemma make_dir_safe_counters d :
  keeps (λ st, (counters st, headers st)) (make_dir_safe d).
Proof. unfold make_dir_safe, makedirs, isdir, tell. frame. Qed.

Lemma new_pool_inv n st st' :
  new_pool n st = (Return tt, st') → st' = st.
Proof. unfold new_pool. destruct (n <? 1); [done | by intros [= <-]]. Qed.

Lemma append_header_run h st :
  append_header h st = (Return tt, set_headers (headers st ++ [h]) st).
Proof. done. Qed.

Lemma startup_headers env argv st args lconfig q st1 :
  startup env argv st = (Return (args, lconfig, q), st1) →
  parse_args env argv = Some args ∧
  lconfig = read_config env (config_path args) ∧
  counters st1 = counters st ∧
  ∃ text, config_get lconfig "pipeline" "steps" = inr text ∧
          headers st1 = headers st ++ run_metadata env argv args text.
Proof.
  unfold startup. rewrite (bind_run _ _ _ _ _ (append_header_run _ st)).
  destruct (length argv =? 1)%nat; [by run_monad |].
  destruct (parse_args env argv) as [args'|]; [| done].
  intros H.
  apply bind_inv in H as (q' & st2 & Hload & H).
  apply bind_inv in H as ([] & st2' & Hpool & H).
  apply new_pool_inv in Hpool as ->.
  apply bind_inv in H as ([] & st3 & Hlog & H).
  apply bind_inv in H as ([] & st4 & Hdir & H).
  revert H. erewrite !bind_run by apply append_header_run.
  intros [= Ea El Eq Es]. subst args' lconfig q' st1.
  split; [done |]. split; [done |].
  (* the pipeline *)
  unfold load_pipeline in Hload.
  apply bind_inv in Hload as ([] & sa & Ha & Hload).
  apply bind_inv in Hload as (text & sb & Hb & Hload).
  apply bind_inv in Hload as ([] & sc & Hc & Hload).
  assert (sa = emit (Log INFO "Pipeline will use these steps:")
                 (set_headers (headers st ++ ["start_time:" +:+ Py.tab +:+ now env]) st))
    as -> by (by injection Ha as <-).
  destruct (config_get (read_config env (config_path args)) "pipeline" "steps")
    as [e|text'] eqn:E; [done |].
  injection Hb as -> <-. rewrite append_header_run in Hc. injection Hc as <-.
  match type of Hload with
  | load_steps ?e ?m ?c ?l ?q0 ?s0 = _ =>
      pose proof (load_steps_counters e m c l q0 s0) as Hk
  end.
  rewrite Hload in Hk. unfold same in Hk. simpl in Hk.
  injection Hk as Hb1 Hn1 Hf1 Hh1.
  assert (st3 = emit (Log INFO "----------") st2) as -> by (by injection Hlog as <-).
  pose proof (make_dir_safe_counters (outdir args) (emit (Log INFO "----------") st2)) as Hk2.
  rewrite Hdir in Hk2. unfold same in Hk2. simpl in Hk2.
  injection Hk2 as Hb2 Hn2 Hf2 Hh2.
  split.
  - unfold counters. simpl. congruence.
  - exists text. split; [done |]. simpl. rewrite Hh2. simpl. rewrite Hh1.
    unfold run_metadata. simpl. by rewrite <- !List.app_assoc.
Qed.

Lemma file_events_app (a b : list event) :
  file_events (a ++ b) = file_events a ++ file_events b.
Proof. apply omap_app. Qed.

Lemma tell_keeps_report e :
  is_file_event e = false → keeps report_view (tell e).
Proof.
  intros He st. destruct st. unfold same, report_view. simpl.
  rewrite file_events_app. simpl. rewrite He. by rewrite app_nil_r.
Qed.

Ltac off_report :=
  repeat first [apply tell_keeps_report; reflexivity | steady_step].

Lemma run_steps_report lock sd q s : keeps report_view (run_steps lock sd q s).
Proof.
  revert s. induction q as [|[p a] q IH]; intros s; simpl; [off_report |].
  unfold dict_set, dict_at. off_report.
Qed.
#[local] Hint Resolve run_steps_report : steady.

Lemma worker_report env i n fname args lconfig q lock sd :
  keeps report_view (worker env i n fname args lconfig q lock sd).
Proof.
  unfold worker, isdir, rmtree, logging, make_dir_safe, makedirs, isdir, load_and_run.
  off_report.
Qed.

Lemma pickle_queue_report q : keeps report_view (pickle_queue q).
Proof.
  induction q as [|[f a] q IH]; simpl; [off_report |].
  unfold dict_at, new_dict. off_report.
Qed.

Lemma get_ready_report ready next fuel : keeps report_view (get_ready ready next fuel).
Proof.
  revert next. induction fuel as [|fuel IH]; intros next; simpl; off_report.
Qed.

Arguments rotate_due : simpl never.

Section CallbackView.

Context (args : Args) (flag : mode).

(** The outcome of reading the values of a record does not depend on the state. *)
Lemma item_values_pure (s : ItemState) (names : list string) :
  ∃ o, ∀ st, item_values s names st = (o, st).
Proof.
  induction names as [|f names [o IH]].
  - by exists (Return []).
  - unfold item_values; fold item_values.
    destruct (fields s !! f) as [v|]; [| by eexists].
    destruct o as [vs|e].
    + exists (Return (v :: vs)). intros st. unfold bind. by rewrite IH.
    + exists (Raise e). intros st. unfold bind. by rewrite IH.
Qed.

Lemma rotate_due_pure (n : Z) (b : batch_size) :
  ∃ o, ∀ st, rotate_due n b st = (o, st).
Proof.
  unfold rotate_due. destruct (n =? 0); [by eexists |].
  destruct b as [|B]; [by eexists |]. destruct (B =? 0); by eexists.
Qed.

Lemma callback_report (r : option ItemState) (st1 st2 : state) :
  report_view st1 = report_view st2 →
  fst (callback args flag r st1) = fst (callback args flag r st2) ∧
  report_view (snd (callback args flag r st1))
  = report_view (snd (callback args flag r st2)).
Proof.
  intros Hv. destruct r as [s|]; [| done].
  destruct (item_values_pure s (output s)) as [o Ho].
  destruct st1 as [d1 h1 b1 n1 f1 fl1 hs1 cr1 tr1].
  destruct st2 as [d2 h2 b2 n2 f2 fl2 hs2 cr2 tr2].
  injection Hv as -> -> -> -> -> Htr.
  destruct (rotate_due_pure n2 (batch_arg args)) as [od Hod].
  unfold callback. run_monad. rewrite !Hod.
  destruct od as [[|]|e], f2, flag; simpl; rewrite ?Ho; destruct o; simpl;
    unfold report_view; simpl; rewrite ?file_events_app, ?Htr; simpl; done.
Qed.

End CallbackView.

Arguments get_ready : simpl never.
Arguments pickle_queue : simpl never.
Arguments worker : simpl never.

Section Pool.

Context (env : Env) (args : Args) (flag : mode) (lconfig : config)
        (q : list (capability * nat)) (lock sd : pval) (tasks : list string).

Lemma deliver_report (rs : list (option ItemState)) (st1 st2 : state) :
  report_view st1 = report_view st2 →
  report_view (snd (deliver args flag rs st1))
  = report_view (snd (deliver args flag rs st2)).
Proof.
  revert st1 st2. induction rs as [|r rs IH]; intros st1 st2 Hv; [done |].
  simpl. destruct (callback_report args flag r st1 st2 Hv) as [Ho Hs].
  unfold bind.
  destruct (callback args flag r st1) as [[[]|e1] sa],
           (callback args flag r st2) as [[[]|e2] sb]; simpl in *; try done.
  by apply IH.
Qed.

Lemma pool_loop_delivers (order : list nat)
    (ready : gmap nat (outcome (option ItemState))) (next : nat) (st_p st_d : state) :
  report_view st_p = report_view st_d →
  ∃ rs, report_view (snd (pool_loop env args flag lconfig q lock sd tasks order
                            ready next st_p))
        = report_view (snd (deliver args flag rs st_d)).
Proof.
  revert ready next st_p st_d.
  induction order as [|i order IH]; intros ready next st_p st_d Hv.
  - exists []. simpl. by case_bool_decide.
  - simpl.
    destruct (tasks !! i) as [fname|]; [| by apply IH].
    destruct (ready !! i); [by apply IH |].
    unfold bind at 1.
    pose proof (pickle_queue_report q st_p) as H1.
    destruct (pickle_queue q st_p) as [[q'|e] s1]; unfold same in H1; simpl in H1;
      [| exists []; simpl; congruence].
    unfold bind at 1, attempt.
    pose proof (worker_report env i (length tasks) fname args lconfig q' lock sd s1) as H2.
    destruct (worker env i (length tasks) fname args lconfig q' lock sd s1) as [r s2].
    unfold same in H2; simpl in H2.
    assert (report_view s2 = report_view st_d) as Hv2 by congruence.
    destruct r as [v|e].
    + (* the result goes to the callback *)
      destruct (callback_report args flag v s2 st_d Hv2) as [Ho Hs].
      unfold bind at 1, try_except.
      destruct (callback args flag v s2) as [[[]|ec] s3] eqn:Ec; simpl in Ho, Hs.
      * unfold bind at 1.
        match goal with |- context [get_ready ?a ?b ?c s3] =>
          pose proof (get_ready_report a b c s3) as H4;
          destruct (get_ready a b c s3) as [[next'|eg] s4] end;
          unfold same in H4; simpl in H4.
        -- destruct (IH (<[i:=Return v]> ready) next' s4
                        (snd (callback args flag v st_d))) as [rs Hrs];
             [congruence |].
           exists (v :: rs). rewrite Hrs. simpl. unfold bind.
           destruct (callback args flag v st_d) as [[[]|?] s5]; simpl in *; done.
        -- exists [v]. simpl. unfold bind.
           destruct (callback args flag v st_d) as [[[]|?] s5]; simpl in *; congruence.
      * exists [v]. simpl. unfold bind.
        destruct (callback args flag v st_d) as [[[]|?] s5]; simpl in *; [done |].
        destruct ec; simpl; done.
    + (* no error callback: the exception waits for the get *)
      unfold bind at 1. simpl.
      unfold bind at 1.
      match goal with |- context [get_ready ?a ?b ?c s2] =>
        pose proof (get_ready_report a b c s2) as H4;
        destruct (get_ready a b c s2) as [[next'|eg] s4] end;
        unfold same in H4; simpl in H4.
      * apply IH. congruence.
      * exists []. simpl. congruence.
Qed.

End Pool.

Lemma log_failed_report l : keeps report_view (log_failed l).
Proof.
  induction l as [|[f e] l IH]; simpl; [off_report |].
  unfold logging. off_report.
Qed.

Lemma finish_report env args st :
  file_events (trace (snd (finish env args st)))
  = file_events (trace st) ++ [FClose (csv_report st)].
Proof.
  unfold finish. unfold bind at 1.
  change (fclose st) with (Return tt, emit (FClose (csv_report st)) st).
  cbv beta iota zeta.
  match goal with |- context [bind ?m ?k (emit ?e st)] =>
    assert (keeps report_view (bind m k)) as Hk end.
  { unfold logging, make_dir_safe, makedirs, isdir.
    repeat first [apply log_failed_report | apply tell_keeps_report; reflexivity
                 | steady_step]. }
  specialize (Hk (emit (FClose (csv_report st)) st)).
  unfold same, report_view in Hk. injection Hk as _ _ _ _ _ ->.
  simpl. by rewrite file_events_app.
Qed.

Lemma enumerate_report env args : keeps report_view (enumerate env args).
Proof. unfold enumerate, logging, sys_exit. off_report. Qed.

(** A run of [main] that gets past the start-up treats the report files as
    the deliveries of some list of results do, and closes the last file when
    it reaches its end. *)
Lemma main_report (env : Env) (argv : list string) (order : list nat)
    (st0 : state) (args : Args) (lconfig : config) (q : list (capability * nat))
    (st : state) :
  startup env argv st0 = (Return (args, lconfig, q), st) →
  let flag := if append_policy env args then A else W in
  ∃ st1 rs tail,
    choose_flag env args st = (Return flag, st1) ∧
    let st_d := snd ((open_report args flag ;; deliver args flag rs) st1) in
    file_events (trace (snd (main env argv order st0)))
    = file_events (trace st_d) ++ tail ∧
    (tail = [] ∨ tail = [FClose (csv_report st_d)]).
Proof.
  intros Hstart flag.
  destruct (choose_flag_policy args env st) as (st1 & Hflag & _).
  assert (∃ st2, open_report args flag st1 = (Return tt, st2)) as [st2 Hopen].
  { unfold open_report, fopen. run_monad. by eexists. }
  unfold main. erewrite bind_run by exact Hstart. cbv beta iota.
  erewrite bind_run by exact Hflag. fold flag.
  erewrite bind_run by exact Hopen.
  assert (∀ rs, snd ((open_report args flag ;; deliver args flag rs) st1)
                = snd (deliver args flag rs st2)) as Hd.
  { intros rs. by erewrite bind_run by exact Hopen. }
  exists st1.
  pose proof (enumerate_report env args st2) as He.
  unfold bind at 1.
  destruct (enumerate env args st2) as [[files|e] s3]; unfold same in He; simpl in He.
  2:{ exists [], []. split; [done |]. rewrite Hd. simpl. rewrite app_nil_r.
      split; [| by left]. unfold report_view in He. by injection He. }
  unfold bind at 1, logging at 1, tell at 1, modify at 1.
  unfold bind at 1.
  match goal with |- context [pool_loop ?e ?a ?f ?c ?qq ?l ?s ?t ?o ?r ?n ?sp] =>
    destruct (pool_loop_delivers e a f c qq l s t o r n sp st2) as [rs Hrs] end.
  { rewrite <- He. destruct s3. unfold report_view. simpl.
    rewrite file_events_app. simpl. by rewrite app_nil_r. }
  exists rs. rewrite Hd.
  match goal with |- context [pool_loop ?e ?a ?f ?c ?qq ?l ?s ?t ?o ?r ?n ?sp] =>
    destruct (pool_loop e a f c qq l s t o r n sp) as [[[]|e'] s4] end;
    simpl in Hrs.
  - exists [FClose (csv_report (snd (deliver args flag rs st2)))].
    split; [done |]. split; [| by right]. rewrite finish_report.
    unfold report_view in Hrs. by injection Hrs as _ _ _ -> _ ->.
  - exists []. split; [done |]. rewrite app_nil_r. split; [| by left].
    unfold report_view in Hrs. by injection Hrs.
Qed.



(** ** The list of failures in a run of [main] *)

Ltac unfold_ops :=
  unfold append_header, logging, tell, make_dir_safe, makedirs, rmtree, isdir,
    new_dict, dict_set, dict_at, fopen, fwrite, fflush, fclose, sys_exit.

Lemma run_steps_failed lock sd q s : keeps failed (run_steps lock sd q s).
Proof.
  revert s. induction q as [|[p a] q IH]; intros s; simpl; [frame |].
  unfold_ops. frame.
Qed.
#[local] Hint Resolve run_steps_failed : steady.

Lemma worker_failed env i n fname args lconfig q lock sd :
  keeps failed (worker env i n fname args lconfig q lock sd).
Proof. unfold worker, load_and_run. unfold_ops. frame. Qed.
#[local] Hint Resolve worker_failed : steady.

Lemma load_steps_failed env in_main lconfig steps q :
  keeps failed (load_steps env in_main lconfig steps q).
Proof.
  revert q. induction steps as [|process steps IH]; intros q; simpl; [frame |].
  unfold_ops. frame.
Qed.
#[local] Hint Resolve load_steps_failed : steady.

Lemma pickle_queue_failed q : keeps failed (pickle_queue q).
Proof.
  induction q as [|[f a] q IH]; simpl; [frame |]. unfold_ops. frame.
Qed.
#[local] Hint Resolve pickle_queue_failed : steady.

Lemma get_ready_failed ready next fuel : keeps failed (get_ready ready next fuel).
Proof.
  revert next. induction fuel as [|fuel IH]; intros next;
    unfold get_ready; fold get_ready; unfold_ops; frame.
Qed.
#[local] Hint Resolve get_ready_failed : steady.

Lemma item_values_failed s names : keeps failed (item_values s names).
Proof.
  induction names as [|f names IH]; unfold item_values; fold item_values; frame.
Qed.
#[local] Hint Resolve item_values_failed : steady.

Lemma callback_failed args flag r : keeps failed (callback args flag r).
Proof. unfold callback, rotate_due. unfold_ops. frame. Qed.
#[local] Hint Resolve callback_failed : steady.

Lemma log_failed_failed l : keeps failed (log_failed l).
Proof.
  induction l as [|[f e] l IH]; simpl; [frame |]. unfold_ops. frame.
Qed.
#[local] Hint Resolve log_failed_failed : steady.

Lemma pool_loop_failed env args flag lconfig q lock sd tasks order ready next :
  keeps failed (pool_loop env args flag lconfig q lock sd tasks order ready next).
Proof.
  revert ready next. induction order as [|i order IH]; intros ready next; simpl.
  - frame.
  - destruct (tasks !! i); [| apply IH]. destruct (ready !! i); [apply IH |].
    frame.
Qed.
#[local] Hint Resolve pool_loop_failed : steady.

(** Whatever the input and whatever the faults of the tasks, [main] leaves
    the list [failed] as it found it: no failure is ever recorded. *)
Lemma main_records_no_failure env argv order : keeps failed (main env argv order).
Proof.
  unfold main, startup, new_pool, load_pipeline, choose_flag, open_report, enumerate,
    finish.
  unfold_ops. frame.
Qed.

(** The handler that [main] does not install: given to [apply_async] as
    [error_callback], it would record the slide of an exception raised by
    [worker]. *)
Lemma worker_error_records env (e : pyexc) (msg doc fname : string) (st : state) :
  exc_args e = [msg] → exc_doc e = Some doc →
  ∃ description,
    worker_error env (add_args e [fname; exc_code e]) st
    = (Return tt,
       set_failed (failed st ++ [(fname, description)])
         (emit (Log ERROR (fname +:+ " - " +:+ Py.tab +:+ "" +:+
                           " - Error analyzing file (skipping): " +:+ Py.tab +:+
                           " " +:+ description)) st)).
Proof.
  intros Hargs Hdoc. unfold worker_error. simpl. rewrite Hargs, Hdoc. simpl.
  by eexists.
Qed.

(** * Further properties of the engine *)

(** ** The steps of a task *)

Lemma called_app (a b : list event) : called (a ++ b) = called a ++ called b.
Proof. apply omap_app. Qed.

(** X1. The steps of the queue are called in queue order. When all of them
    return, each has been called once; when one raises, the steps before it
    have been called, and no step after it is called. *)
Theorem steps_run_in_order_until_fault (lock sd : pval)
    (q : list (capability * nat)) (s : ItemState) (st : state) :
  match run_steps lock sd q s st with
  | (Return _, st') => called (trace st') = called (trace st) ++ step_names q
  | (Raise _, st') =>
      ∃ q1 p a q2,
        q = q1 ++ (p, a) :: q2 ∧
        called (trace st') = called (trace st) ++ step_names q1 ++ [cap_name p]
  end.
Proof.
  revert s st. induction q as [|[p a] q IH]; intros s st.
  - simpl. by rewrite app_nil_r.
  - unfold run_steps; fold run_steps.
    unfold dict_set, dict_at, tell. run_monad.
    match goal with |- context [cap_run p s ?x] => destruct (cap_run p s x) as [pe|s'] end;
      simpl.
    + exists [], p, a, q. rewrite called_app. split; reflexivity.
    + match goal with |- context [run_steps lock sd q ?s1 ?st1] =>
        specialize (IH s1 st1); destruct (run_steps lock sd q s1 st1) as [[r|ex] st'] end;
        simpl in IH; rewrite called_app in IH; simpl in IH.
      * rewrite IH, <- List.app_assoc. reflexivity.
      * destruct IH as (q1 & p' & a' & q2 & -> & Hc).
        exists ((p, a) :: q1), p', a', q2.
        split; [done |]. rewrite Hc, <- List.app_assoc. reflexivity.
Qed.

Lemma make_dir_safe_returns d st : ∃ st', make_dir_safe d st = (Return tt, st').
Proof.
  unfold make_dir_safe, makedirs, isdir. run_monad.
  destruct (bool_decide _); by eexists.
Qed.

Lemma loaded_app (a b : list event) : loaded (a ++ b) = loaded a ++ loaded b.
Proof. apply omap_app. Qed.

Lemma run_steps_returns lock sd q s st s' st' :
  run_steps lock sd q s st = (Return s', st') →
  called (trace st') = called (trace st) ++ step_names q ∧
  loaded (trace st') = loaded (trace st).
Proof.
  revert s st. induction q as [|[p a] q IH]; intros s st.
  - intros [= _ <-]. by rewrite app_nil_r.
  - unfold run_steps; fold run_steps.
    unfold dict_set, dict_at, tell. run_monad.
    match goal with |- context [cap_run p s ?x] => destruct (cap_run p s x) as [pe|s1] end;
      simpl; [done |].
    intros H. destruct (IH _ _ H) as [Hc Hl]. simpl in Hc, Hl.
    rewrite called_app in Hc. rewrite loaded_app in Hl. simpl in Hc, Hl.
    rewrite app_nil_r in Hl. split; [| exact Hl].
    rewrite Hc, <- List.app_assoc. reflexivity.
Qed.

Lemma tell_keeps_calls e :
  (∀ a b c, e ≠ Load a b c) → (∀ a b, e ≠ Call a b) →
  keeps (λ st, (loaded (trace st), called (trace st))) (tell e).
Proof.
  intros H1 H2 st. destruct st. unfold same. simpl.
  rewrite loaded_app, called_app.
  destruct e as [| | | | | | | | |x y z|x y| |]; simpl; rewrite ?app_nil_r; try done.
  - by destruct (H1 x y z).
  - by destruct (H2 x y).
Qed.

Lemma make_dir_safe_calls d :
  keeps (λ st, (loaded (trace st), called (trace st))) (make_dir_safe d).
Proof.
  unfold make_dir_safe, makedirs, isdir.
  repeat first [apply tell_keeps_calls; discriminate | steady_step].
Qed.

Section WorkerOutcome.

Context (env : Env).

Lemma process_item_returns i n fname args lconfig q lock sd st v st' :
  process_item env i n fname args lconfig q lock sd st = (Return v, st') →
  ∃ s, v = Some s ∧ os_handle s = None ∧
       loaded (trace st') = loaded (trace st) ++ [fname] ∧
       called (trace st') = called (trace st) ++ step_names q.
Proof.
  unfold process_item. intros H.
  apply bind_inv in H as ([] & s1 & H1 & H).
  apply bind_inv in H as ([] & s2 & H2 & H).
  apply bind_inv in H as (s & s3 & H3 & H).
  injection H as <- <-.
  exists (pop_os_handle s). split; [done |]. split; [done |].
  pose proof (make_dir_safe_calls (fname_outdir args fname) st) as K1.
  rewrite H1 in K1. unfold same in K1. simpl in K1. injection K1 as Kl Kc.
  injection H2 as <-.
  unfold try_except in H3.
  match type of H3 with context [load_and_run ?e ?f ?a ?c ?qq ?l ?d ?x] =>
    destruct (load_and_run e f a c qq l d x) as [[s'|[c0|pe]] s4] eqn:E end;
    simpl in H3; [| done | done].
  injection H3 as -> ->.
  unfold load_and_run in E.
  apply bind_inv in E as (p & s5 & E1 & E).
  apply bind_inv in E as ([] & s6 & E2 & E).
  apply bind_inv in E as (s0 & s7 & E3 & E).
  destruct (run_steps_returns _ _ _ _ _ _ _ E) as [Hc Hl].
  assert (s5 = emit (Log INFO (working_message i n fname)) s1) as ->.
  { destruct (config_items lconfig "BaseImage.BaseImage"); [done |].
    by injection E1 as _ <-. }
  injection E2 as <-.
  assert (s7 = emit (Load fname (fname_outdir args fname) p)
                 (emit (Log INFO (working_message i n fname)) s1)) as ->.
  { destruct (BaseImage env fname (fname_outdir args fname) p); [done |].
    by injection E3 as _ <-. }
  rewrite Hl, Hc. destruct s1. simpl in *.
  rewrite !loaded_app, !called_app. simpl. rewrite !app_nil_r, Kl, Kc. done.
Qed.

(** X2. When the worker returns nothing, the output directory of the slide
    was there, force was not set, and neither the loader nor a step has
    been called. When it returns a record, the loader has been called once,
    on the slide, every step of the queue once and in queue order, and the
    record carries no handle. *)
Theorem worker_outcome (i n : nat) (fname : string) (args : Args)
    (lconfig : config) (q : list (capability * nat)) (lock sd : pval)
    (st : state) (v : option ItemState) (st' : state) :
  worker env i n fname args lconfig q lock sd st = (Return v, st') →
  match v with
  | None =>
      no_final_slash (fname_outdir args fname) ∈ dirs st ∧ force args = false ∧
      loaded (trace st') = loaded (trace st) ∧
      called (trace st') = called (trace st)
  | Some s =>
      os_handle s = None ∧
      loaded (trace st') = loaded (trace st) ++ [fname] ∧
      called (trace st') = called (trace st) ++ step_names q
  end.
Proof.
  intros H.
  destruct (decide (no_final_slash (fname_outdir args fname) ∈ dirs st)) as [Hin|Hout].
  - destruct (force args) eqn:Hf.
    + rewrite worker_forced in H by done.
      apply process_item_returns in H as (s & -> & Hs & Hl & Hc).
      split; [done |]. revert Hl Hc. destruct st. simpl.
      rewrite loaded_app, called_app. simpl. by rewrite !app_nil_r.
    + rewrite worker_skipped in H by done. injection H as <- <-.
      split; [done |]. split; [done |]. destruct st. simpl.
      rewrite loaded_app, called_app. simpl. by rewrite !app_nil_r.
  - rewrite worker_absent in H by done.
    by apply process_item_returns in H as (s & -> & Hs & Hl & Hc).
Qed.

End WorkerOutcome.

(** ** The worker and the directories of other slides *)

#[export] Instance keeps_outside_refl d : Reflexive (keeps_outside d).
Proof. by intros st p. Qed.

#[export] Instance keeps_outside_trans d : Transitive (keeps_outside d).
Proof. intros a b c H1 H2 p Hp Hu. apply H2; [by apply H1 | done]. Qed.

Lemma same_dirs_outside d st st' : dirs st' = dirs st → keeps_outside d st st'.
Proof. intros H p Hp _. by rewrite H. Qed.

Lemma rmtree_outside d : steady (keeps_outside d) (rmtree d).
Proof.
  intros st p Hp Hu. unfold rmtree. run_monad. apply elem_of_filter.
  split; [rewrite Hu; exact id | done].
Qed.

Lemma make_dir_safe_outside d d' : steady (keeps_outside d) (make_dir_safe d').
Proof.
  intros st p Hp Hu. unfold make_dir_safe, makedirs, isdir. run_monad.
  destruct (bool_decide _); simpl; [done | set_solver].
Qed.

Lemma keeps_dirs_outside {T} d (m : M T) : keeps dirs m → steady (keeps_outside d) m.
Proof. intros H st. apply same_dirs_outside, H. Qed.

Lemma tell_dirs e : keeps dirs (tell e).
Proof. intros st. by destruct st. Qed.

Section WorkerDirectories.

Context (env : Env).



(** X5. When the configuration has no section BaseImage.BaseImage, a task
    that is not skipped fails: the worker raises NoSectionError with the
    slide added to its arguments, the loader and the steps are not called,
    and no parameter dictionary is touched. *)
Theorem loader_section_required (i n : nat) (fname : string) (args : Args)
    (lconfig : config) (q : list (capability * nat)) (lock sd : pval) (st : state) :
  lconfig !! "BaseImage.BaseImage" = None →
  force args = true ∨ no_final_slash (fname_outdir args fname) ∉ dirs st →
  ∃ st',
    worker env i n fname args lconfig q lock sd st
    = (Raise (Exception (add_args (NoSectionError "BaseImage.BaseImage")
                           [fname; "items"])), st') ∧
    loaded (trace st') = loaded (trace st) ∧
    called (trace st') = called (trace st) ∧
    heap st' = heap st.
Proof.
  intros Hsec Hgo.
  assert (∀ s0, ∃ st',
    process_item env i n fname args lconfig q lock sd s0
    = (Raise (Exception (add_args (NoSectionError "BaseImage.BaseImage")
                           [fname; "items"])), st') ∧
    loaded (trace st') = loaded (trace s0) ∧
    called (trace st') = called (trace s0) ∧ heap st' = heap s0) as Hproc.
  { intros s0. unfold process_item, load_and_run, config_items. rewrite Hsec.
    unfold make_dir_safe, makedirs, isdir, try_except. run_monad.
    destruct (bool_decide _); simpl; eexists; (split; [reflexivity |]);
      destruct s0; simpl; unfold loaded, called; rewrite !omap_app; simpl;
      rewrite ?app_nil_r; done. }
  destruct (decide (no_final_slash (fname_outdir args fname) ∈ dirs st)) as [Hin|Hout].
  - destruct Hgo as [Hf|Hno]; [| done].
    rewrite worker_forced by done.
    destruct (Hproc (snd (rmtree (fname_outdir args fname) st)))
      as (st' & Hrun & Hl & Hc & Hh).
    exists st'. split; [done |]. rewrite Hl, Hc, Hh.
    destruct st. unfold loaded, called. simpl. rewrite !omap_app. simpl.
    by rewrite !app_nil_r.
  - rewrite worker_absent by done. apply Hproc.
Qed.

End WorkerDirectories.

(** ** The callback at its edges *)

Section CallbackEdges.

Context (args : Args) (flag : mode).

Lemma item_values_missing (s : ItemState) (pre : list string) (f : string)
    (post : list string) (st : state) :
  Forall (λ g, is_Some (fields s !! g)) pre →
  fields s !! f = None →
  item_values s (pre ++ f :: post) st = (Raise (Exception (KeyError f)), st).
Proof.
  intros Hpre Hf. induction Hpre as [|g pre [v Hv] _ IH]; simpl.
  - unfold item_values; fold item_values. by rewrite Hf.
  - unfold item_values; fold item_values. rewrite Hv. unfold bind. by rewrite IH.
Qed.

(** X6. When a record lists an output field that it does not hold, the
    callback raises KeyError for the first such field, and by then the
    rotation and the header lines, when they were due, have taken place:
    the old file is closed, the batch number raised and the next file
    opened, and the two header lines are written. No row is written, no
    flush made, and the counter of completed items stays. *)
Theorem missing_field_raises (s : ItemState) (pre : list string) (f : string)
    (post : list string) (st : state) :
  sound_batch args → 0 ≤ nfiledone st →
  output s = pre ++ f :: post →
  Forall (λ g, is_Some (fields s !! g)) pre →
  fields s !! f = None →
  callback args flag (Some s) st
  = (Raise (Exception (KeyError f)), before_row args flag s st).
Proof.
  intros HB Hn Hout Hpre Hf. unfold callback.
  unfold bind at 1, gets at 1.
  unfold bind at 1. rewrite rotate_due_rotates by done.
  pose proof (item_values_missing s pre f post) as Hv. rewrite <- Hout in Hv.
  unfold before_row.
  destruct st as [d h b n fst fl hs cr tr]; simpl in *.
  destruct (rotates args n), fst, flag; run_monad; rewrite Hv by done; run_monad;
    rewrite <- ?List.app_assoc, ?app_nil_r; reflexivity.
Qed.

(** X7. With the batch size 0 the first record is reported as usual: the
    test of the counter comes first and no division takes place, so the
    header lines, when due, and then the row and a flush go to the file that
    is open, the counter becomes 1 and no file is rotated. From the second
    record on the callback raises ZeroDivisionError and changes nothing. *)
Theorem zero_batch_size (s : ItemState) (st : state) :
  batch_arg args = Bounded 0 →
  (nfiledone st = 0 → complete s →
     let f := csv_report st in
     ∃ st', callback args flag (Some s) st = (Return tt, st') ∧
            nfiledone st' = 1 ∧ batch st' = batch st ∧
            csv_report st' = f ∧
            trace st' = trace st ++
              (if first st && is_w flag
               then [FWrite f (metadata_text (headers st)); FWrite f (dataset_text s)]
               else []) ++
              [FWrite f (row_of s); FFlush f]) ∧
  (nfiledone st ≠ 0 →
     callback args flag (Some s) st = (Raise (Exception ZeroDivisionError), st)).
Proof.
  intros HB. split.
  - intros Hn Hc. unfold callback.
    unfold bind at 1, gets at 1. unfold bind at 1.
    unfold rotate_due. rewrite Hn, HB. simpl.
    pose proof (item_values_complete s (output s)) as Hv.
    destruct st as [d h b n fst fl hs cr tr]; simpl in *. subst n.
    destruct fst, flag; run_monad; rewrite Hv by done; simpl;
      (eexists; split; [reflexivity |]); simpl;
      rewrite <- ?List.app_assoc; done.
  - intros Hn. unfold callback.
    unfold bind at 1, gets at 1. unfold bind at 1.
    unfold rotate_due. rewrite HB.
    destruct (Z.eqb_spec (nfiledone st) 0); [done |]. done.
Qed.

Lemma later_items_unbounded (hs : list string) (n : Z) (items : list ItemState) :
  batch_arg args = Unbounded → 0 < n →
  items_events args flag hs n items = row_events (results_plain args) items.
Proof.
  intros HB. revert n. induction items as [|s items IH]; intros n Hn; [done |].
  simpl. rewrite IH by lia. unfold item_events, rotates, file_after. rewrite HB.
  replace (n =? 0) with false by (symmetry; apply Z.eqb_neq; lia).
  simpl. by rewrite andb_false_r.
Qed.

(** X8. Without a batch size (the default) the run writes one file,
    results.tsv: it is opened once, never rotated, the header lines are written
    at most once, before the first row, and every row goes to it, each
    followed by a flush. *)
Theorem unbounded_single_file (rs : list (option ItemState)) (st : state) :
  batch_arg args = Unbounded →
  batch st = 1 → nfiledone st = 0 → first st = true →
  Forall complete (omap id rs) →
  let f := results_plain args in
  ∃ st',
    (open_report args flag ;; deliver args flag rs) st = (Return tt, st') ∧
    csv_report st' = f ∧
    trace st' = trace st ++ FOpen f flag ::
      (match omap id rs with
       | s :: _ => if is_w flag
                   then [FWrite f (metadata_text (headers st)); FWrite f (dataset_text s)]
                   else []
       | [] => []
       end) ++ row_events f (omap id rs).
Proof.
  intros HB Hb Hn Hf Hall f.
  destruct (open_report_fresh args flag st Hb Hn Hf) as [Hopen Hrep].
  assert (sound_batch args) as Hsound by (unfold sound_batch; by rewrite HB).
  destruct (deliver_items args flag (omap id rs) 0 _ Hsound Hrep Hall)
    as (st' & Hrun & Htr & Hrep' & _).
  assert (file_after args 0 = f) as H0 by (unfold file_after; by rewrite HB).
  exists st'. split; [| split].
  - erewrite bind_run by exact Hopen. by rewrite deliver_skips_none.
  - destruct Hrep' as [_ _ Hfile _ _]. rewrite Hfile. unfold file_after. by rewrite HB.
  - rewrite Htr. simpl. rewrite <- List.app_assoc. simpl. rewrite H0. do 2 f_equal.
    destruct (omap id rs) as [|s items]; [done |]. simpl.
    rewrite later_items_unbounded by (done || lia).
    unfold item_events, rotates, file_after. rewrite HB. simpl.
    destruct (is_w flag); simpl; done.
Qed.
End CallbackEdges.

(** ** Counters and file names *)

Lemma append_cancel_l (a x y : string) : a +:+ x = a +:+ y → x = y.
Proof.
  induction a as [|c a IH]; [done |]. rewrite !append_cons. intros [= H]. by apply IH.
Qed.

Lemma length_append (a b : string) :
  String.length (a +:+ b) = (String.length a + String.length b)%nat.
Proof.
  induction a as [|c a IH]; [done |]. rewrite append_cons. simpl. by rewrite IH.
Qed.

Lemma append_cancel_r (c x y : string) : x +:+ c = y +:+ c → x = y.
Proof.
  revert y. induction x as [|a x IH]; intros [|b y] H; [done | | |].
  - apply (f_equal String.length) in H.
    rewrite !length_append in H. simpl in H. lia.
  - apply (f_equal String.length) in H.
    rewrite !length_append in H. simpl in H. lia.
  - rewrite !append_cons in H. injection H as -> H. f_equal. by apply IH.
Qed.

Section Counters.

Context (args : Args) (flag : mode).

Lemma results_name_inj (b1 b2 : Z) :
  results_name args b1 = results_name args b2 → b1 = b2.
Proof.
  unfold results_name. intros H.
  do 3 apply append_cancel_l in H. apply append_cancel_r in H.
  by apply (inj pretty) in H.
Qed.

(** X9. Whatever the result and whatever the outcome, one call of the
    callback never lowers the counter of completed items or the batch number
    and raises each by one at most; the counter goes up exactly when a record
    was given and the callback returned. The list of failures, the metadata
    lines, the directories and the parameter dictionaries are not touched. *)
Theorem counters_never_go_back (r : option ItemState) (st : state) :
  let st' := snd (callback args flag r st) in
  nfiledone st ≤ nfiledone st' ≤ nfiledone st + 1 ∧
  batch st ≤ batch st' ≤ batch st + 1 ∧
  (nfiledone st' = nfiledone st + 1 ↔
   ∃ s, r = Some s ∧ fst (callback args flag r st) = Return tt) ∧
  failed st' = failed st ∧ headers st' = headers st ∧ dirs st' = dirs st ∧
  heap st' = heap st.
Proof.
  destruct r as [s|]; simpl.
  2:{ split; [lia |]. split; [lia |].
      split; [split; [lia | by intros (s & ? & _)] | done]. }
  destruct (item_values_pure s (output s)) as [o Ho].
  destruct (rotate_due_pure (nfiledone st) (batch_arg args)) as [od Hod].
  unfold callback. destruct st as [d h b n f fl hs cr tr]. simpl in Hod.
  run_monad. rewrite !Hod.
  destruct od as [[|]|e], f, flag; simpl; rewrite ?Ho; destruct o; simpl;
    (split; [lia |]; split; [lia |];
     split; [split; [intros; first [lia | by eexists]
                    | intros (s0 & _ & Hr); first [done | lia]]
            | done]).
Qed.

Lemma current_file_next (B n : Z) :
  0 < B → 0 ≤ n →
  current_file B (n + 1)
  = if (0 <? n) && (n mod B =? 0) then current_file B n + 1 else current_file B n.
Proof.
  intros HB Hn. unfold current_file, file_number.
  rewrite (Z.max_r 1 (n + 1)) by lia. replace (n + 1 - 1) with n by lia.
  destruct (Z.ltb_spec 0 n) as [Hpos|Hz]; simpl.
  - rewrite Z.max_r by lia. destruct (Z.eqb_spec (n mod B) 0) as [Hm|Hm].
    + rewrite <- (div_pred_multiple B n) by done. lia.
    + by rewrite (div_pred_other B n).
  - by replace n with 0 by lia.
Qed.

Lemma opened_items (B : Z) (hs : list string) (items : list ItemState) (n : Z) :
  batch_arg args = Bounded B → 0 < B → 0 ≤ n →
  ∃ ks, opened (items_events args flag hs n items) = results_name args <$> ks ∧
        Forall (λ k, current_file B n < k) ks ∧ StronglySorted Z.lt ks.
Proof.
  intros HB Hpos. revert n. induction items as [|s items IH]; intros n Hn.
  - exists []. repeat split; constructor.
  - destruct (IH (n + 1) ltac:(lia)) as (ks & Hks & Hlow & Hsort).
    rewrite (current_file_next B n) in Hlow by done.
    simpl. unfold opened in *. rewrite omap_app, Hks.
    unfold item_events, rotates, file_after. rewrite HB.
    destruct ((0 <? n) && (n mod B =? 0)) eqn:Hr; simpl;
      destruct (is_w flag), (n =? 0); simpl.
    all: try (exists ks; split; [reflexivity | done]).
    all: exists (file_number B (n + 1) :: ks);
      (assert (file_number B (n + 1) = current_file B n + 1) as Hcur;
       [ pose proof (current_file_next B n Hpos Hn) as H; rewrite Hr in H;
         unfold current_file in H at 1; by rewrite Z.max_r in H by lia |]);
      (split; [reflexivity |]); rewrite Hcur; (split;
       [ constructor; [lia |]; eapply Forall_impl; [exact Hlow |]; simpl; lia
       | by constructor ]).
Qed.

(** X10. For a batch size B of at least 1, the report files opened in a run
    are pairwise different: a rotation never opens again, and so never
    truncates, a file written earlier in the run. *)
Theorem report_files_are_distinct (B : Z) (rs : list (option ItemState))
    (st : state) :
  batch_arg args = Bounded B → 0 < B →
  batch st = 1 → nfiledone st = 0 → first st = true →
  Forall complete (omap id rs) →
  NoDup (opened (drop (length (trace st))
                   (trace (snd ((open_report args flag ;;
                                 deliver args flag rs) st))))).
Proof.
  intros HB Hpos Hb Hn Hf Hall.
  destruct (open_report_fresh args flag st Hb Hn Hf) as [Hopen Hrep].
  assert (sound_batch args) as Hsound by (unfold sound_batch; by rewrite HB).
  destruct (deliver_items args flag (omap id rs) 0 _ Hsound Hrep Hall)
    as (st' & Hrun & Htr & _).
  erewrite bind_run by exact Hopen. rewrite deliver_skips_none, Hrun.
  simpl in Htr. rewrite <- List.app_assoc in Htr. simpl. rewrite Htr, drop_app_length.
  replace (file_after args 0) with (results_name args 1)
    by (unfold file_after; by rewrite HB).
  destruct (opened_items B (headers st) (omap id rs) 0 HB Hpos ltac:(lia))
    as (ks & Hks & Hlow & Hsort).
  unfold opened in *. rewrite omap_app, Hks. simpl.
  change (results_name args 1 :: (results_name args <$> ks))
    with (results_name args <$> (1 :: ks)).
  apply NoDup_fmap_2; [intros a b; apply results_name_inj |].
  assert (StronglySorted Z.lt (1 :: ks)) as Hall_sorted.
  { constructor; [done |]. eapply Forall_impl; [exact Hlow |].
    unfold current_file, file_number. simpl. intros k. rewrite Z.div_0_l by lia. lia. }
  clear -Hall_sorted. induction Hall_sorted as [|k l Hs IH Hk]; constructor; [| done].
  intros Hin. rewrite Forall_forall in Hk. specialize (Hk k Hin). lia.
Qed.
End Counters.

(** ** Loading the pipeline *)

Section Loading.

Context (env : Env).

Lemma load_steps_resolves in_main lconfig steps q0 st q st' :
  load_steps env in_main lconfig steps q0 st = (Return q, st') →
  ∃ added, q = q0 ++ added ∧
           Forall2 (resolved env lconfig (heap st')) steps added.
Proof.
  revert q0 st. induction steps as [|process steps IH]; intros q0 st; simpl.
  - intros [= <- <-]. exists []. by rewrite app_nil_r.
  - destruct (Py.split "." process) as [|mod_name [|func_name [|? ?]]] eqn:Es; try done.
    intros H.
    apply bind_inv in H as ([] & st1 & H1 & H).
    apply bind_inv in H as (func & st2 & H2 & H).
    apply bind_inv in H as (a & st3 & H3 & H).
    pose proof (load_steps_heap _ _ _ _ _ _ _ _ H) as [Hheap _].
    apply IH in H as (added & -> & Hall).
    exists ((func, a) :: added). split; [by rewrite <- List.app_assoc |].
    constructor; [| done].
    exists mod_name, func_name. split; [done |]. simpl.
    split; [revert H2; destruct (lookup_func env mod_name _) as [e|c];
            [done | by intros [= -> _]] |].
    revert H3. unfold new_dict. run_monad. intros [= <- <-]. simpl in Hheap.
    rewrite Hheap, <- List.app_assoc. rewrite lookup_app_r by done.
    by rewrite Nat.sub_diag.
Qed.

(** X11. When [load_pipeline] returns, every configured identifier has
    exactly one dot; the function is the one found in the module under the
    name that stands before a colon, while the parameters are those of the
    section named by the whole identifier, variant included. The queue lists
    the steps in configured order, each with a dictionary of its own, and
    one metadata line, the list of the steps, is added. *)
Theorem load_pipeline_resolves (in_main : bool) (lconfig : config)
    (st : state) (q : list (capability * nat)) (st' : state) :
  load_pipeline env in_main lconfig st = (Return q, st') →
  ∃ text,
    config_get lconfig "pipeline" "steps" = inr text ∧
    Forall2 (resolved env lconfig (heap st')) (Py.splitlines text) q ∧
    NoDup (snd <$> q) ∧
    headers st' = headers st ++ ["pipeline: " +:+ Py.join " " (Py.splitlines text)].
Proof.
  intros H.
  destruct (load_pipeline_heap _ _ _ _ _ _ H) as (text & Hc & _ & Haddr).
  exists text. split; [done |].
  unfold load_pipeline in H.
  apply bind_inv in H as ([] & st1 & H1 & H).
  apply bind_inv in H as (text' & st2 & H2 & H).
  apply bind_inv in H as ([] & st3 & H3 & H).
  rewrite Hc in H2. injection H2 as <- <-.
  split; [| split].
  - by apply load_steps_resolves in H as (added & -> & Hall).
  - rewrite Haddr. apply NoDup_seq.
  - pose proof (load_steps_counters env in_main lconfig (Py.splitlines text) [] st3) as Hk.
    rewrite H in Hk. unfold same in Hk. simpl in Hk. injection Hk as _ _ _ ->.
    revert H3. unfold append_header. run_monad. intros [= <-]. simpl.
    destruct in_main; revert H1; unfold logging, tell; run_monad; by intros [= <-].
Qed.

Lemma load_steps_beside_trace (b1 b2 : bool) lconfig steps q0 (st1 st2 : state) :
  beside_trace st1 = beside_trace st2 →
  fst (load_steps env b1 lconfig steps q0 st1)
  = fst (load_steps env b2 lconfig steps q0 st2) ∧
  beside_trace (snd (load_steps env b1 lconfig steps q0 st1))
  = beside_trace (snd (load_steps env b2 lconfig steps q0 st2)).
Proof.
  revert q0 st1 st2. induction steps as [|process steps IH]; intros q0 st1 st2 Hv;
    simpl; [done |].
  destruct (Py.split "." process) as [|mod_name [|func_name [|? ?]]]; try done.
  destruct st1 as [d1 h1 bt1 n1 f1 fl1 hs1 cr1 tr1].
  destruct st2 as [d2 h2 bt2 n2 f2 fl2 hs2 cr2 tr2].
  unfold beside_trace in Hv. simpl in Hv. simplify_eq.
  destruct b1, b2; unfold logging, tell, new_dict; run_monad;
    (destruct (lookup_func env mod_name (hd "" (Py.split ":" func_name)))
       as [e|func]; simpl; [done |]); by apply IH.
Qed.

(** X12. Loading the pipeline in a worker process gives what loading it in
    the main process gives, outcome and state alike, but for the log: in a
    worker nothing is logged. *)
Theorem load_pipeline_in_worker (lconfig : config) (st : state) :
  let quiet := load_pipeline env false lconfig st in
  let loud := load_pipeline env true lconfig st in
  fst quiet = fst loud ∧
  beside_trace (snd quiet) = beside_trace (snd loud) ∧
  trace (snd quiet) = trace st.
Proof.
  simpl. split; [| split].
  - unfold load_pipeline. unfold logging, tell. run_monad.
    destruct (config_get lconfig "pipeline" "steps") as [e|text]; simpl; [done |].
    apply load_steps_beside_trace. by destruct st.
  - unfold load_pipeline. unfold logging, tell. run_monad.
    destruct (config_get lconfig "pipeline" "steps") as [e|text]; simpl;
      [by destruct st |].
    apply load_steps_beside_trace. by destruct st.
  - assert (keeps trace (load_pipeline env false lconfig)) as H; [| apply H].
    unfold load_pipeline, append_header.
    assert (∀ steps q0, keeps trace (load_steps env false lconfig steps q0)) as Hs.
    { induction steps as [|p steps IH]; intros q0; simpl; [frame |].
      unfold new_dict. frame. }
    repeat first [apply Hs | steady_step].
Qed.

End Loading.

(** ** The error handler, the start-up and a run without input *)

Section ErrorHandler.

Context (env : Env).

(** X14. The handler after the worker. The worker adds the path of the
    slide and the text of the code object to the arguments of the exception,
    and the handler takes the second argument for the name of the file. It
    therefore records the path of the slide when the exception came with
    one argument; the text of the code object when it came with none; and
    the second original argument when it came with two or more. An
    exception whose class has no docstring makes the handler itself raise a
    TypeError and record nothing. *)
Theorem worker_error_blames (e : pyexc) (fname : string) (st : state) :
  match exc_doc e with
  | Some doc =>
      ∃ name description st',
        worker_error env (add_args e [fname; exc_code e]) st = (Return tt, st') ∧
        failed st' = failed st ++ [(name, description)] ∧
        (exc_args e = [] → name = exc_code e) ∧
        (∀ a, exc_args e = [a] → name = fname) ∧
        (∀ a b l, exc_args e = a :: b :: l → name = b)
  | None =>
      ∃ x, worker_error env (add_args e [fname; exc_code e]) st
           = (Raise (Exception x), st) ∧
           exc_class x = "TypeError"
  end.
Proof.
  unfold worker_error. simpl.
  destruct (exc_doc e) as [doc|].
  - destruct (exc_args e) as [|a [|b l]]; simpl;
      eexists _, _, _; (split; [reflexivity |]); (split; [reflexivity |]);
      repeat split; intros; congruence.
  - destruct (exc_args e) as [|a [|b l]]; simpl; by eexists.
Qed.

End ErrorHandler.

Lemma tell_keeps_files e :
  is_file_event e = false → keeps (λ st, (dirs st, file_events (trace st))) (tell e).
Proof.
  intros He st. destruct st. unfold same. simpl.
  rewrite file_events_app. simpl. rewrite He. by rewrite app_nil_r.
Qed.

Ltac off_files :=
  repeat first [apply tell_keeps_files; reflexivity | steady_step].

Lemma load_steps_files env in_main lconfig steps q :
  keeps (λ st, (dirs st, file_events (trace st)))
        (load_steps env in_main lconfig steps q).
Proof.
  revert q. induction steps as [|process steps IH]; intros q; simpl; [off_files |].
  unfold logging, new_dict. off_files.
Qed.

Section StartupFacts.

Context (env : Env).

Lemma load_pipeline_files in_main lconfig :
  keeps (λ st, (dirs st, file_events (trace st))) (load_pipeline env in_main lconfig).
Proof.
  unfold load_pipeline, append_header, logging.
  repeat first [apply load_steps_files | apply tell_keeps_files; reflexivity
               | steady_step].
Qed.

(** X15. When the start-up fails (no argument, arguments that do not parse,
    a pipeline that cannot be loaded, a pool of less than one process),
    [main] ends with the same exception in the same state, no directory has
    been made and no report file has been touched. *)
Theorem startup_failure_is_clean (argv : list string) (order : list nat)
    (st st' : state) (e : exn) :
  startup env argv st = (Raise e, st') →
  main env argv order st = (Raise e, st') ∧
  dirs st' = dirs st ∧
  file_events (trace st') = file_events (trace st).
Proof.
  intros H. split; [unfold main; by erewrite bind_raise by exact H |].
  revert H. unfold startup. rewrite (bind_run _ _ _ _ _ (append_header_run _ st)).
  destruct (length argv =? 1)%nat.
  { run_monad. intros [= _ <-]. simpl. unfold file_events. rewrite omap_app. simpl.
    by rewrite app_nil_r. }
  destruct (parse_args env argv) as [args|]; [| by intros [= _ <-]].
  unfold bind at 1.
  match goal with |- context [load_pipeline env true ?c ?s] =>
    pose proof (load_pipeline_files true c s) as Hk;
    destruct (load_pipeline env true c s) as [[q|e'] s1] end.
  - unfold bind at 1, new_pool. destruct (nthreads args <? 1).
    { intros [= _ <-]. unfold same in Hk. simpl in Hk. by injection Hk. }
    unfold ret at 1. cbv beta iota.
    unfold logging at 1, tell at 1. erewrite bind_run by reflexivity.
    destruct (make_dir_safe_returns (outdir args) (emit (Log INFO "----------") s1))
      as [s2 H2].
    erewrite bind_run by exact H2.
    erewrite !bind_run by apply append_header_run. done.
  - intros [= _ <-]. unfold same in Hk. simpl in Hk. by injection Hk.
Qed.




End StartupFacts.

Lemma startup_failure_is_clean_witness :
  ∃ st', main (Demo.system [] "" "" Unbounded) ["histoqc"] [] (initial ∅)
         = (Raise (SystemExit 1), st') ∧ dirs st' = ∅.
Proof.
  eexists. 
  destruct (startup_failure_is_clean (Demo.system [] "" "" Unbounded) ["histoqc"] []
              (initial ∅) _ (SystemExit 1) eq_refl) as (H & Hd & _).
  split; [exact H | exact Hd].
Defined.


(** ** The pool and the parameter dictionaries *)

#[export] Instance keeps_dicts_refl n : Reflexive (keeps_dicts n).
Proof. by intros st H. Qed.

#[export] Instance keeps_dicts_trans n : Transitive (keeps_dicts n).
Proof.
  intros a b c H1 H2 Ha. destruct (H1 Ha) as [Hb E1].
  destruct (H2 Hb) as [Hc E2]. split; [done | congruence].
Qed.

Lemma keeps_heap_dicts n {T} (m : M T) : keeps heap m → steady (keeps_dicts n) m.
Proof. intros H st Hn. specialize (H st). unfold same in H. by rewrite H. Qed.

Lemma dict_set_dicts n a k v : (n ≤ a)%nat → steady (keeps_dicts n) (dict_set a k v).
Proof.
  intros Ha st Hn. destruct st. simpl in *.
  rewrite length_alter. split; [done |]. rewrite take_alter. destruct (decide (a < n)%nat); [lia | done].
Qed.

Lemma new_dict_dicts n p : steady (keeps_dicts n) (new_dict p).
Proof.
  intros st Hn. destruct st. simpl in *. rewrite length_app. split; [lia |].
  by rewrite take_app_le.
Qed.

Lemma tell_heap e : keeps heap (tell e).
Proof. intros st. by destruct st. Qed.

Lemma run_steps_dicts n lock sd q s :
  Forall (λ ca : capability * nat, (n ≤ ca.2)%nat) q →
  steady (keeps_dicts n) (run_steps lock sd q s).
Proof.
  revert s. induction q as [|[p a] q IH]; intros s Hq; simpl; [frame |].
  inversion Hq as [|? ? Ha Hq']; subst. simpl in Ha.
  repeat first [ by apply dict_set_dicts | by apply IH
               | apply keeps_heap_dicts, tell_heap
               | unfold dict_at; steady_step ].
Qed.

Lemma worker_dicts n env i m fname args lconfig q lock sd :
  Forall (λ ca : capability * nat, (n ≤ ca.2)%nat) q →
  steady (keeps_dicts n) (worker env i m fname args lconfig q lock sd).
Proof.
  intros Hq. unfold worker, load_and_run, isdir, rmtree, logging, make_dir_safe,
    makedirs, isdir.
  repeat first [ by apply run_steps_dicts
               | apply keeps_heap_dicts, tell_heap
               | apply keeps_heap_dicts; apply steady_modify; intros [? ? ? ? ? ? ? ? ?];
                 reflexivity
               | steady_step ].
Qed.

Lemma pickle_queue_dicts n q st :
  (n ≤ length (heap st))%nat →
  ∃ q' st', pickle_queue q st = (Return q', st') ∧
            (n ≤ length (heap st'))%nat ∧ take n (heap st') = take n (heap st) ∧
            Forall (λ ca : capability * nat, (n ≤ ca.2)%nat) q'.
Proof.
  revert st. induction q as [|[f a] q IH]; intros st Hn.
  - exists [], st. by repeat split.
  - unfold pickle_queue; fold pickle_queue. unfold dict_at, new_dict. run_monad.
    destruct st as [d h b nf f1 fl hs cr tr]. simpl in *.
    destruct (IH {| dirs := d; heap := h ++ [default ∅ (h !! a)]; batch := b;
                    nfiledone := nf; first := f1; failed := fl; headers := hs;
                    csv_report := cr; trace := tr |}) as (q' & st' & Hp & Hl & Ht & Hq).
    { simpl. rewrite length_app. lia. }
    rewrite Hp. exists ((f, length h) :: q'), st'. split; [done |].
    split; [done |]. split.
    + rewrite Ht. simpl. by rewrite take_app_le.
    + by constructor.
Qed.

Lemma item_values_heap s names : keeps heap (item_values s names).
Proof.
  induction names as [|f names IH]; unfold item_values; fold item_values; frame.
Qed.

Lemma callback_heap args flag r : keeps heap (callback args flag r).
Proof.
  unfold callback, rotate_due. unfold_ops.
  repeat first [apply item_values_heap | steady_step].
Qed.

Lemma get_ready_heap ready next fuel : keeps heap (get_ready ready next fuel).
Proof.
  revert next. induction fuel as [|fuel IH]; intros next;
    unfold get_ready; fold get_ready; unfold_ops; frame.
Qed.

Section PoolDictionaries.

Context (env : Env) (args : Args) (flag : mode) (lconfig : config)
        (q : list (capability * nat)) (lock sd : pval) (tasks : list string).

Lemma pool_loop_dicts n order ready next :
  steady (keeps_dicts n)
         (pool_loop env args flag lconfig q lock sd tasks order ready next).
Proof.
  revert ready next. induction order as [|i order IH]; intros ready next; simpl.
  - frame.
  - destruct (tasks !! i) as [fname|]; [| apply IH].
    destruct (ready !! i); [apply IH |].
    intros st Hn.
    destruct (pickle_queue_dicts n q st Hn) as (q' & s1 & Hp & Hl1 & Ht1 & Hq').
    erewrite bind_run by exact Hp.
    match goal with |- context [bind (attempt ?w) ?k s1] =>
      assert (steady (keeps_dicts n) (bind (attempt w) k)) as Hk end.
    { repeat first [ by apply worker_dicts | apply IH
                   | apply keeps_heap_dicts, callback_heap
                   | apply keeps_heap_dicts, get_ready_heap
                   | steady_step ]. }
    destruct (Hk s1 Hl1) as [Hl2 Ht2]. split; [done | congruence].
Qed.

(** X18. The pool works on copies: whatever the tasks do, a parameter
    dictionary that exists when the pool starts is the same when the pool
    ends. *)
Theorem pool_works_on_copies (order : list nat)
    (ready : gmap nat (outcome (option ItemState))) (next : nat) (st : state)
    (a : nat) (d : params) :
  heap st !! a = Some d →
  heap (snd (pool_loop env args flag lconfig q lock sd tasks order ready next st)) !! a
  = Some d.
Proof.
  intros Ha.
  destruct (pool_loop_dicts (length (heap st)) order ready next st) as [Hl Ht]; [done |].
  rewrite firstn_all in Ht.
  rewrite <- (take_drop (length (heap st)) (heap (snd _))), Ht.
  by apply lookup_app_l_Some.
Qed.

End PoolDictionaries.

(** ** The normal end of the pool *)

Lemma tell_keeps_logged e :
  (∀ v, e ≠ LogResult v) → keeps (λ st, results_logged (trace st)) (tell e).
Proof.
  intros He st. destruct st. unfold same, results_logged. simpl.
  rewrite omap_app. simpl. destruct e; try by rewrite app_nil_r.
  by destruct (He r).
Qed.

Ltac unlogged :=
  repeat first [apply tell_keeps_logged; discriminate | steady_step].

Lemma run_steps_logged lock sd q s :
  keeps (λ st, results_logged (trace st)) (run_steps lock sd q s).
Proof.
  revert s. induction q as [|[p a] q IH]; intros s; simpl; [unlogged |].
  unfold dict_set, dict_at. unlogged.
Qed.

Lemma worker_logged env i n fname args lconfig q lock sd :
  keeps (λ st, results_logged (trace st)) (worker env i n fname args lconfig q lock sd).
Proof.
  unfold worker, isdir, rmtree, logging, make_dir_safe, makedirs, isdir, load_and_run.
  repeat first [apply run_steps_logged | apply tell_keeps_logged; discriminate
               | steady_step].
Qed.

Lemma pickle_queue_logged q : keeps (λ st, results_logged (trace st)) (pickle_queue q).
Proof.
  induction q as [|[f a] q IH]; unfold pickle_queue; fold pickle_queue; [unlogged |].
  unfold dict_at, new_dict. unlogged.
Qed.

Lemma item_values_logged s names :
  keeps (λ st, results_logged (trace st)) (item_values s names).
Proof.
  induction names as [|f names IH]; unfold item_values; fold item_values; frame.
Qed.

Lemma callback_logged args flag r :
  keeps (λ st, results_logged (trace st)) (callback args flag r).
Proof.
  unfold callback, rotate_due, fopen, fwrite, fflush, fclose.
  repeat first [apply item_values_logged | apply tell_keeps_logged; discriminate
               | steady_step].
Qed.

Lemma get_ready_logged ready next fuel st next' st' :
  get_ready ready next fuel st = (Return next', st') →
  (next ≤ next')%nat ∧
  (∀ j, (next ≤ j < next')%nat → is_Some (ready !! j)) ∧
  length (results_logged (trace st'))
  = (length (results_logged (trace st)) + (next' - next))%nat.
Proof.
  revert next st. induction fuel as [|fuel IH]; intros next st;
    unfold get_ready; fold get_ready.
  - intros [= <- <-]. split; [done |]. split; [lia | lia].
  - destruct (ready !! next) as [[v|e]|] eqn:E.
    + unfold tell. erewrite bind_run by reflexivity. intros H.
      destruct (IH _ _ H) as (Hle & Hin & Hlen).
      split; [lia |]. split.
      * intros j Hj. destruct (decide (j = next)) as [->|Hne]; [by rewrite E |].
        apply Hin. lia.
      * rewrite Hlen. destruct st. unfold results_logged. simpl.
        rewrite omap_app, length_app. simpl. lia.
    + done.
    + intros [= <- <-]. split; [done |]. split; [lia | lia].
Qed.

Section PoolEnd.

Context (env : Env) (args : Args) (flag : mode) (lconfig : config)
        (q : list (capability * nat)) (lock sd : pval) (tasks : list string).

Lemma pool_loop_end (order : list nat)
    (ready : gmap nat (outcome (option ItemState))) (next : nat) (st st' : state) :
  pool_loop env args flag lconfig q lock sd tasks order ready next st = (Return tt, st') →
  (∀ j, (j < next)%nat → is_Some (ready !! j)) →
  (∀ j, is_Some (ready !! j) → (j < length tasks)%nat) →
  (∀ j, (j < length tasks)%nat → j ∈ order ∨ is_Some (ready !! j)) ∧
  (length (results_logged (trace st')) + next
   = length (results_logged (trace st)) + length tasks)%nat.
Proof.
  revert ready next st.
  induction order as [|i order IH]; intros ready next st Hrun Hbelow Hin.
  - simpl in Hrun. case_bool_decide as Hnext; [done |]. injection Hrun as <-.
    assert (next ≤ length tasks)%nat as Hle.
    { destruct next as [|k]; [lia |]. specialize (Hin k (Hbelow k ltac:(lia))). lia. }
    split; [| lia]. intros j Hj. right. apply Hbelow. lia.
  - simpl in Hrun.
    destruct (tasks !! i) as [fname|] eqn:Ei.
    2:{ destruct (IH _ _ _ Hrun Hbelow Hin) as [H1 H2]. split; [| done].
        intros j Hj. destruct (H1 j Hj); [left; by right | by right]. }
    destruct (ready !! i) eqn:Er.
    { destruct (IH _ _ _ Hrun Hbelow Hin) as [H1 H2]. split; [| done].
      intros j Hj. destruct (H1 j Hj); [left; by right | by right]. }
    apply bind_inv in Hrun as (q' & s1 & Hp & Hrun).
    apply bind_inv in Hrun as (r & s2 & Hw & Hrun).
    apply bind_inv in Hrun as ([] & s3 & Hc & Hrun).
    apply bind_inv in Hrun as (next' & s4 & Hg & Hrun).
    pose proof (pickle_queue_logged q st) as K1. rewrite Hp in K1.
    assert (results_logged (trace s2) = results_logged (trace s1)) as K2.
    { unfold attempt in Hw.
      pose proof (worker_logged env i (length tasks) fname args lconfig q' lock sd s1) as K.
      destruct (worker env i (length tasks) fname args lconfig q' lock sd s1) as [r' s'].
      by injection Hw as <- <-. }
    assert (results_logged (trace s3) = results_logged (trace s2)) as K3.
    { destruct r as [v|e]; [| by injection Hc as <-].
      pose proof (callback_logged args flag v s2) as K. unfold try_except in Hc.
      destruct (callback args flag v s2) as [[[]|[c|e]] s'];
        simpl in Hc; [| done | done]. by injection Hc as <-. }
    destruct (get_ready_logged _ _ _ _ _ _ Hg) as (Hle & Hnew & Hlen).
    destruct (IH _ _ _ Hrun) as [H1 H2].
    { intros j Hj. destruct (decide (j < next)%nat) as [Hlt|Hge].
      - destruct (decide (j = i)) as [->|Hne]; [by rewrite lookup_insert_eq |].
        rewrite lookup_insert_ne by done. by apply Hbelow.
      - apply Hnew. lia. }
    { intros j Hj. destruct (decide (j = i)) as [->|Hne].
      - by apply lookup_lt_Some in Ei.
      - rewrite lookup_insert_ne in Hj by done. by apply Hin. }
    unfold same in K1. simpl in K1.
    split.
    + intros j Hj. destruct (H1 j Hj) as [Ho|Hr]; [left; by right |].
      destruct (decide (j = i)) as [->|Hne]; [left; by left |].
      rewrite lookup_insert_ne in Hr by done. by right.
    + rewrite <- K1, <- K2, <- K3. lia.
Qed.

(** X17. When the pool comes to its normal end, every task has completed
    and [main] has logged exactly one result for each task. *)
Theorem pool_normal_end (order : list nat) (st st' : state) :
  pool_loop env args flag lconfig q lock sd tasks order ∅ 0%nat st = (Return tt, st') →
  (∀ i, (i < length tasks)%nat → i ∈ order) ∧
  length (results_logged (trace st'))
  = (length (results_logged (trace st)) + length tasks)%nat.
Proof.
  intros Hrun. destruct (pool_loop_end order ∅ 0%nat st st' Hrun) as [H1 H2].
  - intros j Hj. lia.
  - intros j [x Hx]. by rewrite lookup_empty in Hx.
  - split; [| lia]. intros i Hi. destruct (H1 i Hi) as [Ho|[x Hx]]; [done |].
    by rewrite lookup_empty in Hx.
Qed.

End PoolEnd.

(** ** The end of a run *)

Lemma log_failed_dirs l : keeps (λ st, (dirs st, csv_report st)) (log_failed l).
Proof.
  induction l as [|[f e] l IH]; simpl; [frame |]. unfold_ops. frame.
Qed.

Section Finish.

Context (env : Env) (args : Args).

(** X19. When the end of a run returns, its last action was the copy of
    the error log into the output directory, and on the report files it has
    done one thing, closing the open one. With the link turned off it has
    made no directory; otherwise the data directory of the user interface
    exists. *)
Theorem finish_ends_run (st st' : state) :
  finish env args st = (Return tt, st') →
  ∃ st1,
    st' = emit (CopyFile "error.log" (outdir args +:+ os_sep +:+ "error.log")) st1 ∧
    file_events (trace st1) = file_events (trace st) ++ [FClose (csv_report st)] ∧
    (symlinkoff args = true → dirs st1 = dirs st) ∧
    (symlinkoff args = false → "/app/data/ui/data" ∈ dirs st1).
Proof.
  intros H.
  pose proof (finish_report env args st) as Hfile. rewrite H in Hfile. simpl in Hfile.
  unfold finish in H.
  apply bind_inv in H as ([] & s1 & H1 & H).
  apply bind_inv in H as ([] & s2 & H2 & H).
  apply bind_inv in H as (fl & s3 & H3 & H).
  apply bind_inv in H as ([] & s4 & H4 & H).
  apply bind_inv in H as ([] & s5 & H5 & H).
  injection H as <-. exists s5. split; [reflexivity |].
  split.
  { revert Hfile. destruct s5. simpl. rewrite file_events_app. simpl.
    by rewrite app_nil_r. }
  assert (dirs s4 = dirs st) as Hd.
  { injection H1 as <-. injection H2 as <-. injection H3 as _ <-.
    assert (keeps dirs (match fl with
                        | [] => ret tt
                        | _ => logging INFO
                                 ("These images failed (available also in error.log), " +:+
                                  "warnings are listed in warnings column in output:") ;;
                               log_failed fl
                        end)) as Hk.
    { assert (keeps dirs (log_failed fl)) as Hl.
      { intros x. pose proof (log_failed_dirs fl x) as Hx. unfold same in *.
        exact (f_equal fst Hx). }
      unfold_ops. destruct fl; repeat first [apply Hl | steady_step]. }
    match type of H4 with _ ?s = _ => specialize (Hk s) end.
    rewrite H4 in Hk. unfold same in Hk. simpl in Hk. by rewrite Hk. }
  split.
  - intros Hoff. rewrite Hoff in H5. injection H5 as <-. exact Hd.
  - intros Hoff. rewrite Hoff in H5.
    apply bind_inv in H5 as ([] & s6 & H6 & H5).
    pose proof (make_dir_safe_there "/app/data/ui/data/" s4) as Hthere.
    rewrite H6 in Hthere. simpl in Hthere.
    assert (dirs s5 = dirs s6) as ->; [| exact Hthere].
    revert H5. unfold_ops. destruct (can_symlink env _ _); run_monad;
      intros [= <-]; reflexivity.
Qed.

End Finish.

(** ** The further properties at work on the demonstration installation *)

Lemma worker_outcome_witness :
  ∃ s st',
    worker (Demo.system [] "" "" Unbounded) 0 1 "/slides/A.svs"
      (Demo.arguments ["A.svs"] "" Unbounded) Demo.settings
      [(Demo.getBasicStats, 0%nat)] PLock PSharedDict
      (set_heap (λ _, [∅]) (initial ∅))
    = (Return (Some s), st') ∧
    os_handle s = None ∧
    loaded (trace st') = ["/slides/A.svs"] ∧
    called (trace st') = ["getBasicStats"].
Proof.
  pose (w := worker (Demo.system [] "" "" Unbounded) 0 1 "/slides/A.svs"
               (Demo.arguments ["A.svs"] "" Unbounded) Demo.settings
               [(Demo.getBasicStats, 0%nat)] PLock PSharedDict
               (set_heap (λ _, [∅]) (initial ∅))).
  pose (s := match w.1 with Return (Some s) => s | _ => bare_item end).
  assert (w = (Return (Some s), w.2)) as E.
  { vm_compute. reflexivity. }
  exists s, w.2.
  split; [exact E |].
  exact (worker_outcome (Demo.system [] "" "" Unbounded) 0 1 "/slides/A.svs"
           (Demo.arguments ["A.svs"] "" Unbounded) Demo.settings
           [(Demo.getBasicStats, 0%nat)] PLock PSharedDict
           (set_heap (λ _, [∅]) (initial ∅)) _ _ E).
Defined.



Lemma loader_section_required_witness :
  ∃ st',
    worker (Demo.system [] "" "" Unbounded) 0 1 "/slides/A.svs"
      (with_force true (Demo.arguments ["A.svs"] "" Unbounded)) ∅ [] PLock PSharedDict
      (initial ∅)
    = (Raise (Exception (add_args (NoSectionError "BaseImage.BaseImage")
                           ["/slides/A.svs"; "items"])), st') ∧
    loaded (trace st') = [].
Proof.
  destruct (loader_section_required (Demo.system [] "" "" Unbounded) 0 1 "/slides/A.svs"
              (with_force true (Demo.arguments ["A.svs"] "" Unbounded)) ∅ []
              PLock PSharedDict (initial ∅))
    as (st' & H & Hl & _).
  - reflexivity.
  - left. reflexivity.
  - exists st'. split; [exact H | exact Hl].
Defined.

Lemma missing_field_raises_witness :
  callback (Demo.arguments ["A.svs"] "" (Bounded 2)) W (Some short_record) (initial ∅)
  = (Raise (Exception (KeyError "score")),
     before_row (Demo.arguments ["A.svs"] "" (Bounded 2)) W short_record (initial ∅)).
Proof.
  apply (missing_field_raises (Demo.arguments ["A.svs"] "" (Bounded 2)) W
           short_record ["filename"] "score" [] (initial ∅)).
  - unfold sound_batch. simpl. lia.
  - simpl. lia.
  - reflexivity.
  - constructor; [| constructor]. exists "/slides/A.svs". vm_compute. reflexivity.
  - vm_compute. reflexivity.
Defined.

Lemma zero_batch_size_witness :
  callback (Demo.arguments ["A.svs"] "" (Bounded 0)) W (Some (Demo.slide "/slides/B.svs"))
    (set_nfiledone 1 (initial ∅))
  = (Raise (Exception ZeroDivisionError), set_nfiledone 1 (initial ∅)).
Proof.
  destruct (zero_batch_size (Demo.arguments ["A.svs"] "" (Bounded 0)) W
              (Demo.slide "/slides/B.svs") (set_nfiledone 1 (initial ∅)))
    as [_ H].
  - reflexivity.
  - apply H. simpl. lia.
Defined.

Lemma unbounded_single_file_witness :
  ∃ st',
    (open_report (Demo.arguments ["*.svs"] "" Unbounded) W ;;
     deliver (Demo.arguments ["*.svs"] "" Unbounded) W Demo.three_results) (initial ∅)
    = (Return tt, st') ∧
    csv_report st' = "out/results.tsv".
Proof.
  destruct (unbounded_single_file (Demo.arguments ["*.svs"] "" Unbounded) W
              Demo.three_results (initial ∅))
    as (st' & H & Hf & _).
  - reflexivity.
  - reflexivity.
  - reflexivity.
  - reflexivity.
  - exact three_results_complete.
  - exists st'. split; [exact H | exact Hf].
Defined.

Lemma report_files_are_distinct_witness :
  NoDup (opened (drop (length (trace (initial ∅)))
                   (trace (snd ((open_report (Demo.arguments ["*.svs"] "" (Bounded 2)) W ;;
                                 deliver (Demo.arguments ["*.svs"] "" (Bounded 2)) W
                                         Demo.three_results) (initial ∅)))))).
Proof.
  apply (report_files_are_distinct (Demo.arguments ["*.svs"] "" (Bounded 2)) W 2
           Demo.three_results (initial ∅)).
  - reflexivity.
  - lia.
  - reflexivity.
  - reflexivity.
  - reflexivity.
  - exact three_results_complete.
Defined.

Lemma load_pipeline_resolves_witness :
  ∃ q st' text,
    load_pipeline (Demo.system [] "" "" Unbounded) true Demo.settings (initial ∅)
    = (Return q, st') ∧
    Forall2 (resolved (Demo.system [] "" "" Unbounded) Demo.settings (heap st'))
            (Py.splitlines text) q ∧
    NoDup (snd <$> q).
Proof.
  pose (r := load_pipeline (Demo.system [] "" "" Unbounded) true Demo.settings (initial ∅)).
  pose (q := match r.1 with Return q => q | Raise _ => [] end).
  assert (load_pipeline (Demo.system [] "" "" Unbounded) true Demo.settings (initial ∅)
          = (Return q, r.2)) as E.
  { vm_compute. reflexivity. }
  destruct (load_pipeline_resolves (Demo.system [] "" "" Unbounded) true Demo.settings
              (initial ∅) q r.2 E) as (text & _ & Hres & Hnd & _).
  exists q, r.2, text. split; [exact E |]. split; [exact Hres | exact Hnd].
Defined.

Lemma pool_normal_end_witness :
  length (results_logged
            (trace (snd (pool_loop (Demo.system [] "" "" Unbounded)
                           (Demo.arguments ["A.svs"] "" Unbounded) W Demo.settings []
                           PLock PSharedDict ["/slides/A.svs"] [0%nat] ∅ 0%nat
                           (initial ∅)))))
  = 1%nat.
Proof.
  destruct (pool_normal_end (Demo.system [] "" "" Unbounded)
              (Demo.arguments ["A.svs"] "" Unbounded) W Demo.settings []
              PLock PSharedDict ["/slides/A.svs"] [0%nat] (initial ∅)
              (snd (pool_loop (Demo.system [] "" "" Unbounded)
                      (Demo.arguments ["A.svs"] "" Unbounded) W Demo.settings []
                      PLock PSharedDict ["/slides/A.svs"] [0%nat] ∅ 0%nat
                      (initial ∅))))
    as [_ H].
  - vm_compute. reflexivity.
  - exact H.
Defined.

Lemma pool_works_on_copies_witness :
  heap (snd (pool_loop (Demo.system [] "" "" Unbounded)
               (Demo.arguments ["A.svs"] "" Unbounded) W Demo.settings
               [(Demo.getBasicStats, 0%nat)] PLock PSharedDict ["/slides/A.svs"]
               [0%nat] ∅ 0%nat (set_heap (λ _, [∅]) (initial ∅)))) !! 0%nat
  = Some ∅.
Proof.
  apply (pool_works_on_copies (Demo.system [] "" "" Unbounded)
           (Demo.arguments ["A.svs"] "" Unbounded) W Demo.settings
           [(Demo.getBasicStats, 0%nat)] PLock PSharedDict ["/slides/A.svs"]
           [0%nat] ∅ 0%nat (set_heap (λ _, [∅]) (initial ∅)) 0%nat ∅).
  reflexivity.
Defined.


Lemma finish_ends_run_witness :
  ∃ st1,
    snd (finish (Demo.system [] "" "" Unbounded)
           (Demo.arguments ["A.svs"] "" Unbounded) (initial ∅))
    = emit (CopyFile "error.log" "out/error.log") st1 ∧
    dirs st1 = ∅.
Proof.
  destruct (finish_ends_run (Demo.system [] "" "" Unbounded)
              (Demo.arguments ["A.svs"] "" Unbounded) (initial ∅)
              (snd (finish (Demo.system [] "" "" Unbounded)
                      (Demo.arguments ["A.svs"] "" Unbounded) (initial ∅))))
    as (st1 & H & _ & Hd & _).
  - vm_compute. reflexivity.
  - exists st1. split; [exact H | exact (Hd eq_refl)].
Defined.
